(** * The watchtower process of the smartnode daemon

    A shallow embedding of [rocketpool-watchtower/watchtower/watchtower.go]:
    the process record, the trust check, the start and stop of minipool
    updates, the discovery cycle with its re-arm timer, and the handler of
    beacon chain messages.

    The Go methods mutate the process through a pointer and talk to
    collaborators that live in other packages (chain client, account manager,
    contract manager, beacon client, publisher, logger).  Here a method is a
    function from the runtime state to an exit status, the next state and the
    list of external interactions it performed, in program order.  What the
    collaborators answer is read from a [World] record. *)

From Stdlib Require Import ZArith List String Bool Lia.
From Stdlib Require Import Floats.SpecFloat.
From stdpp Require Import base gmap strings list.

Local Open Scope string_scope.
Local Open Scope Z_scope.
Local Open Scope list_scope.

(** ** Data *)

(** [error] values are kept as their [Error()] text. *)
Definition GoError := string.

(** [common.Address] is [[20]byte]; it is kept as the number the twenty bytes
    spell, so the zero value of the Go type is [0]. *)
Definition Address := Z.
Definition zeroAddress : Address := 0.

(** [accounts.Account]; only the [Address] field is read. *)
Record Account := { Account_Address : Address }.
Definition zeroAccount : Account := {| Account_Address := zeroAddress |}.

(** A channel value is the identity of the channel [make] returned. *)
Definition Chan := nat.

Definition Bytes := list Byte.byte.

(** [float64], as the IEEE 754 binary64 datum. *)
Definition float64 := spec_float.

Module beaconchain.

(** Modelled from the spec: [beaconchain.ClientMessage], declared in a
    package whose files are not among those verified.  The outbound request
    payload carries an operation tag and the pubkey; these are the two fields
    the watchtower fills. *)
Record ClientMessage := { cMessage : string; cPubkey : string }.

(** Modelled from the spec: [beaconchain.ServerMessage], declared in the same
    package.  The inbound payload carries the operation tag, the pubkey, the
    status code and the balance, an integer in the smallest unit (gwei);
    these are the fields the watchtower reads, as [Message], [Pubkey],
    [Status.Code] and [Balance]. *)
Record ServerMessage := {
  Message : string;
  Pubkey : string;
  Status_Code : string;
  Balance : Z
}.

(** [beaconchain.Client], of which only the identity travels in an event. *)
Definition Client := nat.

End beaconchain.
Import beaconchain.

(** A value of type [interface{}] as it arrives on the beacon message channel:
    either the anonymous struct [struct{Client *beaconchain.Client; Message
    []byte}] or a value of some other dynamic type (including the nil
    interface). *)
Inductive Dyn :=
| DynClientEvent (c : Client) (m : Bytes)
| DynString (s : string)
| DynInt (z : Z)
| DynBytes (b : Bytes)
| DynNil.

(** Arguments of a contract call or transaction. *)
Inductive Arg :=
| ArgAddress (a : Address)
| ArgBigInt (z : Z).

(** The contract a call goes to: an entry of [p.p.CM.Contracts], or a contract
    bound to an address by [p.p.CM.NewContract]. *)
Inductive ContractRef :=
| Registered (name : string)
| BoundAt (a : Address) (abi : string).

(** Lines handed to [p.p.Log.Println]. *)
Inductive LogLine :=
| LogText (s : string)
| LogMinipool (fmt : string) (a : Address)
| LogWithdrawn (a : Address) (balanceWei : Z)
| LogInterval (nanos : Z)
| LogError (prefix : string) (err : GoError).

Definition isErrorLine (l : LogLine) : bool :=
  match l with LogError _ _ => true | _ => false end.

(** External interactions, in the order the code performs them. *)
Inductive Event :=
| EvLog (l : LogLine)
| EvWaitSync
| EvLock
| EvUnlock
| EvGetNodeAccount
| EvGetNodeAccountTransactor
| EvCall (c : ContractRef) (method : string) (args : list Arg)
| EvNewContract (a : Address) (abi : string)
| EvGetActiveMinipools
| EvExecTx (contract : string) (method : string) (args : list Arg)
| EvBeaconSend (payload : Bytes)
| EvAddSubscriber (topic : string) (c : Chan)
| EvRemoveSubscriber (topic : string) (c : Chan)
| EvChanSend (c : Chan)
| EvArmTimer (nanos : Z) (cancel : Chan).

(** Names imported from packages whose files are not among those verified:
    the two lifecycle constants of package [minipool] (the status is a
    [uint8]) and the unit conversion [eth.GweiToWei], from [float64] to
    [*big.Int]. *)
Class Imports := {
  STAKING : Z;
  LOGGED_OUT : Z;
  GweiToWei : float64 -> Z
}.

(** What the collaborators answer.  A Go result [(v, err)] whose value is
    only used when [err == nil] is a sum; [GetNodeAccount], whose error the
    code drops, keeps both components. *)
Record World := {
  json_Unmarshal : Bytes -> GoError + ServerMessage;
  json_Marshal : ClientMessage -> GoError + Bytes;
  GetNodeAccount : Account * option GoError;
  GetNodeAccountTransactor : option GoError;
  call_getTrusted : Address -> GoError + bool;
  call_getMinipoolCheckInterval : GoError + Z;
  NewContract : Address -> string -> option GoError;
  call_getStatus : Address -> GoError + Z;
  GetActiveMinipoolsByValidatorPubkey : GoError + gmap string Address;
  Beacon_Send : Bytes -> option GoError;
  ExecuteContractTransaction : string -> string -> list Arg -> option GoError
}.

(** [type WatchtowerProcess struct]; [txLock] is [true] while the mutex is
    held.  The provider [p] is the [World]. *)
Record WatchtowerProcess := {
  updatingMinipools : bool;
  stopCheckMinipools : Chan;
  beaconMessageChannel : Chan;
  activeMinipools : gmap string Address;
  txLock : bool
}.

(** The process together with what the Go runtime keeps for it: the next
    channel identity [make] hands out, and the goroutines parked in a
    [select] that receives from a channel (one entry per goroutine). *)
Record Sys := {
  proc : WatchtowerProcess;
  nextChan : Chan;
  parked : list Chan
}.

Definition with_proc (f : WatchtowerProcess -> WatchtowerProcess) (s : Sys) : Sys :=
  {| proc := f (proc s); nextChan := nextChan s; parked := parked s |}.

Definition set_updatingMinipools (b : bool) (p : WatchtowerProcess) :=
  {| updatingMinipools := b;
     stopCheckMinipools := stopCheckMinipools p;
     beaconMessageChannel := beaconMessageChannel p;
     activeMinipools := activeMinipools p;
     txLock := txLock p |}.

Definition set_activeMinipools (m : gmap string Address) (p : WatchtowerProcess) :=
  {| updatingMinipools := updatingMinipools p;
     stopCheckMinipools := stopCheckMinipools p;
     beaconMessageChannel := beaconMessageChannel p;
     activeMinipools := m;
     txLock := txLock p |}.

Definition set_txLock (b : bool) (p : WatchtowerProcess) :=
  {| updatingMinipools := updatingMinipools p;
     stopCheckMinipools := stopCheckMinipools p;
     beaconMessageChannel := beaconMessageChannel p;
     activeMinipools := activeMinipools p;
     txLock := b |}.

(** ** Actions *)

(** How a call ends: it returns, it stays blocked on a channel or mutex
    operation nobody completes, or it panics. *)
Inductive Exit (A : Type) :=
| Returned (a : A)
| Blocked
| Panicked.
Arguments Returned {A} a.
Arguments Blocked {A}.
Arguments Panicked {A}.

Definition Act (A : Type) : Type := Sys -> Exit A * Sys * list Event.

Definition ret {A} (a : A) : Act A := fun s => (Returned a, s, []).

Definition bind {A B} (m : Act A) (k : A -> Act B) : Act B :=
  fun s =>
    match m s with
    | (Returned a, s1, t1) =>
        let '(r, s2, t2) := k a s1 in (r, s2, t1 ++ t2)
    | (Blocked, s1, t1) => (Blocked, s1, t1)
    | (Panicked, s1, t1) => (Panicked, s1, t1)
    end.

Notation "'do' x <- m ; k" := (bind m (fun x => k))
  (at level 10, x name, m at level 100, k at level 200).
Notation "m >> k" := (bind m (fun _ => k))
  (at level 90, right associativity).

Definition emit (e : Event) : Act unit := fun s => (Returned tt, s, [e]).
Definition Println (l : LogLine) : Act unit := emit (EvLog l).
Definition getProc : Act WatchtowerProcess := fun s => (Returned (proc s), s, []).
Definition modifyProc (f : WatchtowerProcess -> WatchtowerProcess) : Act unit :=
  fun s => (Returned tt, with_proc f s, []).

Definition exitOf {A} (r : Exit A * Sys * list Event) : Exit A := fst (fst r).
Definition sysOf {A} (r : Exit A * Sys * list Event) : Sys := snd (fst r).
Definition traceOf {A} (r : Exit A * Sys * list Event) : list Event := snd r.

(** [eth.WaitSync(p.p.Client, true, false)]: blocks until the node is in
    sync; its result is not used. *)
Definition WaitSync : Act unit := emit EvWaitSync.

(** The runtime with one goroutine more parked on [c]. *)
Definition parkedOn (c : Chan) (s : Sys) : Sys :=
  {| proc := proc s; nextChan := nextChan s; parked := c :: parked s |}.

(** [go f()] for a goroutine that parks in a [select] receiving from [c]. *)
Definition park (c : Chan) : Act unit :=
  fun s => (Returned tt, parkedOn c s, []).

Fixpoint remove_first (c : Chan) (l : list Chan) : option (list Chan) :=
  match l with
  | [] => None
  | x :: l' =>
      if Nat.eqb x c then Some l'
      else match remove_first c l' with
           | Some r => Some (x :: r)
           | None => None
           end
  end.

(** [c <- struct{}{}] on an unbuffered channel: completes by handing the value
    to one goroutine that is receiving from [c], and blocks while there is
    none. *)
Definition chanSend (c : Chan) : Act unit :=
  fun s =>
    match remove_first c (parked s) with
    | Some rest =>
        (Returned tt, {| proc := proc s; nextChan := nextChan s; parked := rest |},
         [EvChanSend c])
    | None => (Blocked, s, [EvChanSend c])
    end.

(** [p.txLock.Lock()] and [p.txLock.Unlock()]. *)
Definition Lock : Act unit :=
  fun s =>
    if txLock (proc s) then (Blocked, s, [])
    else (Returned tt, with_proc (set_txLock true) s, [EvLock]).

Definition Unlock : Act unit :=
  fun s =>
    if txLock (proc s) then (Returned tt, with_proc (set_txLock false) s, [EvUnlock])
    else (Panicked, s, []).

Definition panic {A} : Act A := fun s => (Panicked, s, []).

(** A [for ... range] loop whose body is an action. *)
Fixpoint forEach {A} (l : list A) (body : A -> Act unit) : Act unit :=
  match l with
  | [] => ret tt
  | x :: l' => body x >> forEach l' body
  end.

(** ** Config *)

Definition NANOS_PER_SECOND : Z := 1000000000.
Definition MAX_DURATION : Z := 2 ^ 63 - 1.

(** [DEFAULT_CHECK_MINIPOOLS_INTERVAL = "1m"], parsed, in nanoseconds. *)
Definition DEFAULT_CHECK_MINIPOOLS_INTERVAL : Z := 60 * NANOS_PER_SECOND.

(** [CHECK_TRUSTED_INTERVAL = "1m"], parsed, in nanoseconds. *)
Definition checkTrustedInterval : Z := 60 * NANOS_PER_SECOND.

(** [d, _ := time.ParseDuration(n.String() + "s")] for an integer [n]: the
    duration in nanoseconds, and the zero duration when the value does not
    fit an [int64] count of nanoseconds (the error is dropped). *)
Definition ParseDuration_seconds (n : Z) : Z :=
  if Z.abs n * NANOS_PER_SECOND <=? MAX_DURATION then n * NANOS_PER_SECOND else 0.

(** [float64(x)] for an integer [x]: round to nearest, ties to even, in
    binary64. *)
Definition float64_of_int (x : Z) : float64 := binary_normalize 53 1024 x 0 false.

(** The integer a [float64] denotes, when it denotes one: the value of
    [S754_finite s m e] is [m * 2^e], negated when [s] is set.  Infinities,
    NaN and values with a fractional part denote none. *)
Definition float64_int_value (f : float64) : option Z :=
  match f with
  | S754_zero _ => Some 0
  | S754_finite s m e =>
      let sign := if s then -1 else 1 in
      if 0 <=? e then Some (sign * (Z.pos m * 2 ^ e))
      else if Z.pos m mod 2 ^ (- e) =? 0 then Some (sign * (Z.pos m / 2 ^ (- e)))
      else None
  | _ => None
  end.

(** ** The process *)

Section Watchtower.

Context `{Imports}.

(** [getMinipoolStatus(p, &address)] *)
Definition getMinipoolStatus (w : World) (address : Address) : Act (GoError + Z) :=
  emit (EvNewContract address "rocketMinipool") >>
  match NewContract w address "rocketMinipool" with
  | Some err => ret (inl ("Error initialising minipool contract: " ++ err)%string)
  | None =>
      emit (EvCall (BoundAt address "rocketMinipool") "getStatus" []) >>
      match call_getStatus w address with
      | inl err => ret (inl ("Error retrieving minipool status: " ++ err)%string)
      | inr status => ret (inr status)
      end
  end.

(** The part of [onBeaconClientMessage] that runs while the lock is held. *)
Definition handleBeaconClientMessage (w : World) (messageData : Bytes) : Act unit :=
  (* Parse message *)
  match json_Unmarshal w messageData with
  | inl err => Println (LogError "Error decoding beacon message: " err)
  | inr message =>
      (* Handle exit and withdrawal validator status messages only *)
      if negb (Message message =? "validator_status")%string then ret tt else
      if negb ((Status_Code message =? "exited")%string
               || (Status_Code message =? "withdrawable")%string) then ret tt else
      (* Get associated minipool *)
      do p <- getProc;
      match activeMinipools p !! Pubkey message with
      | None => ret tt
      | Some minipoolAddress =>
          (* Wait for node to sync *)
          WaitSync >>
          (* Get minipool status *)
          do r <- getMinipoolStatus w minipoolAddress;
          match r with
          | inl err => Println (LogError "" err)
          | inr status =>
              if status =? STAKING then
                (* Log minipool out if staking *)
                Println (LogMinipool "Minipool %s is ready for logout..." minipoolAddress) >>
                emit EvGetNodeAccountTransactor >>
                match GetNodeAccountTransactor w with
                | Some err => Println (LogError "" err)
                | None =>
                    emit (EvExecTx "rocketNodeWatchtower" "logoutMinipool"
                                   [ArgAddress minipoolAddress]) >>
                    match ExecuteContractTransaction w "rocketNodeWatchtower" "logoutMinipool"
                                                     [ArgAddress minipoolAddress] with
                    | Some err => Println (LogError "Error logging out minipool: " err)
                    | None =>
                        Println (LogMinipool "Minipool %s was successfully logged out"
                                             minipoolAddress)
                    end
                end
              else if (status =? LOGGED_OUT)
                      && (Status_Code message =? "withdrawable")%string then
                (* Withdraw minipool if logged out and withdrawable *)
                Println (LogMinipool "Minipool %s is ready for withdrawal..." minipoolAddress) >>
                (* Get balance to withdraw *)
                let balanceWei := GweiToWei (float64_of_int (Balance message)) in
                emit EvGetNodeAccountTransactor >>
                match GetNodeAccountTransactor w with
                | Some err => Println (LogError "" err)
                | None =>
                    emit (EvExecTx "rocketNodeWatchtower" "withdrawMinipool"
                                   [ArgAddress minipoolAddress; ArgBigInt balanceWei]) >>
                    match ExecuteContractTransaction w "rocketNodeWatchtower" "withdrawMinipool"
                            [ArgAddress minipoolAddress; ArgBigInt balanceWei] with
                    | Some err => Println (LogError "Error withdrawing minipool: " err)
                    | None => Println (LogWithdrawn minipoolAddress balanceWei)
                    end
                end
              else ret tt
          end
      end
  end.

(** [func (p *WatchtowerProcess) onBeaconClientMessage(messageData []byte)]:
    the lock is taken first and the deferred unlock runs on every return. *)
Definition onBeaconClientMessage (w : World) (messageData : Bytes) : Act unit :=
  Lock >> handleBeaconClientMessage w messageData >> Unlock.

(** The body of the goroutine started for one entry of the active set. *)
Definition requestValidatorStatus (w : World) (entry : string * Address) : Act unit :=
  let '(pubkey, minipoolAddress) := entry in
  Println (LogMinipool "Checking minipool %s status..." minipoolAddress) >>
  match json_Marshal w {| cMessage := "get_validator_status"; cPubkey := pubkey |} with
  | inl err => Println (LogError "Error encoding get validator status payload: " err)
  | inr payload =>
      emit (EvBeaconSend payload) >>
      match Beacon_Send w payload with
      | Some err => Println (LogError "Error sending get validator status message: " err)
      | None => ret tt
      end
  end.

(** [func (p *WatchtowerProcess) scheduleCheckMinipools()]: the goroutine it
    starts parks in a [select] on the timer and on [p.stopCheckMinipools]. *)
Definition scheduleCheckMinipools (w : World) : Act unit :=
  WaitSync >>
  emit (EvCall (Registered "rocketMinipoolSettings") "getMinipoolCheckInterval" []) >>
  let checkInterval :=
    match call_getMinipoolCheckInterval w with
    | inr checkIntervalSeconds => ParseDuration_seconds checkIntervalSeconds
    | inl _ => 0
    end in
  let checkInterval :=
    if checkInterval =? 0 then DEFAULT_CHECK_MINIPOOLS_INTERVAL else checkInterval in
  Println (LogInterval checkInterval) >>
  do p <- getProc;
  emit (EvArmTimer checkInterval (stopCheckMinipools p)) >>
  park (stopCheckMinipools p).

(** [func (p *WatchtowerProcess) checkMinipools()].  The status requests run
    in goroutines of their own; their interactions are listed entry by entry
    in the order [map_to_list] gives, which stands for the unspecified order
    of a Go map range. *)
Definition checkMinipools (w : World) : Act unit :=
  Println (LogText "Checking active minipools...") >>
  WaitSync >>
  emit EvGetActiveMinipools >>
  match GetActiveMinipoolsByValidatorPubkey w with
  | inl err => Println (LogError "Error getting active minipools: " err)
  | inr discovered =>
      modifyProc (set_activeMinipools discovered) >>
      do p <- getProc;
      forEach (map_to_list (activeMinipools p)) (requestValidatorStatus w) >>
      scheduleCheckMinipools w
  end.

(** [func (p *WatchtowerProcess) startUpdateMinipools()] *)
Definition startUpdateMinipools (w : World) : Act unit :=
  do p <- getProc;
  if updatingMinipools p then ret tt else
  modifyProc (set_updatingMinipools true) >>
  Println (LogText "Node is trusted, starting watchtower process...") >>
  checkMinipools w >>
  do p <- getProc;
  emit (EvAddSubscriber "beacon.client.message" (beaconMessageChannel p)).

(** [func (p *WatchtowerProcess) stopUpdateMinipools()] *)
Definition stopUpdateMinipools : Act unit :=
  do p <- getProc;
  if negb (updatingMinipools p) then ret tt else
  modifyProc (set_updatingMinipools false) >>
  Println (LogText "Node is untrusted, stopping watchtower process...") >>
  chanSend (stopCheckMinipools p) >>
  emit (EvRemoveSubscriber "beacon.client.message" (beaconMessageChannel p)).

(** [func (p *WatchtowerProcess) checkTrusted()] *)
Definition checkTrusted (w : World) : Act unit :=
  WaitSync >>
  emit EvGetNodeAccount >>
  let nodeAccount := fst (GetNodeAccount w) in
  emit (EvCall (Registered "rocketNodeAPI") "getTrusted"
               [ArgAddress (Account_Address nodeAccount)]) >>
  match call_getTrusted w (Account_Address nodeAccount) with
  | inl err => Println (LogError "Error retrieving node trusted status: " err)
  | inr trusted =>
      if trusted then startUpdateMinipools w else stopUpdateMinipools
  end.

(** One turn of the goroutine that ranges over [p.beaconMessageChannel]: the
    single-value type assertion panics on any other dynamic type. *)
Definition onChannelValue (w : World) (eventData : Dyn) : Act unit :=
  match eventData with
  | DynClientEvent _ message => onBeaconClientMessage w message
  | _ => panic
  end.

(** The timer of a parked re-arm goroutine fires: it leaves its [select]
    and runs the next discovery cycle.  Nothing happens when no timer is
    armed. *)
Definition onTimer (w : World) : Act unit :=
  fun s =>
    match parked s with
    | [] => (Returned tt, s, [])
    | _ :: rest =>
        checkMinipools w {| proc := proc s; nextChan := nextChan s; parked := rest |}
    end.

End Watchtower.

(** [func StartWatchtowerProcess(p *services.Provider)]: the process value it
    initialises.  The two [make(chan ...)] calls take the next two channel
    identities; no goroutine is parked yet. *)
Definition StartWatchtowerProcess (next : Chan) : Sys :=
  {| proc := {| updatingMinipools := false;
                stopCheckMinipools := next;
                beaconMessageChannel := S next;
                activeMinipools := ∅;
                txLock := false |};
     nextChan := S (S next);
     parked := [] |}.

(** ** Reading a trace *)

Definition isSyncWait (e : Event) : bool :=
  match e with EvWaitSync => true | _ => false end.

(** Reads of chain state: contract calls, contract binding, and the
    active-minipool query. *)
Definition isChainRead (e : Event) : bool :=
  match e with
  | EvCall _ _ _ | EvNewContract _ _ | EvGetActiveMinipools => true
  | _ => false
  end.

Definition isTx (e : Event) : bool :=
  match e with EvExecTx _ _ _ => true | _ => false end.

Definition isErrorLog (e : Event) : bool :=
  match e with EvLog l => isErrorLine l | _ => false end.

Definition isDiscovery (e : Event) : bool :=
  match e with EvGetActiveMinipools => true | _ => false end.

Definition isStatusRequest (e : Event) : bool :=
  match e with EvBeaconSend _ => true | _ => false end.

Definition isArmTimer (e : Event) : bool :=
  match e with EvArmTimer _ _ => true | _ => false end.

Definition isSubscribe (e : Event) : bool :=
  match e with EvAddSubscriber _ _ => true | _ => false end.

Definition isSendOn (c : Chan) (e : Event) : bool :=
  match e with EvChanSend c' => Nat.eqb c' c | _ => false end.

(** The transactions a trace submits, in order. *)
Definition txs (t : list Event) : list Event := List.filter isTx t.

Definition logoutTx (a : Address) : Event :=
  EvExecTx "rocketNodeWatchtower" "logoutMinipool" [ArgAddress a].

Definition withdrawTx (a : Address) (balanceWei : Z) : Event :=
  EvExecTx "rocketNodeWatchtower" "withdrawMinipool" [ArgAddress a; ArgBigInt balanceWei].

(** The status codes the handler lets through. *)
Definition allowedCode (code : string) : bool :=
  (code =? "exited")%string || (code =? "withdrawable")%string.

Definition isLogout (e : Event) : bool :=
  match e with EvExecTx _ method _ => (method =? "logoutMinipool")%string | _ => false end.

Definition isWithdraw (e : Event) : bool :=
  match e with EvExecTx _ method _ => (method =? "withdrawMinipool")%string | _ => false end.

Definition isLockEvent (e : Event) : bool :=
  match e with EvLock | EvUnlock => true | _ => false end.

(** What a status request goroutine can do: log and send to the beacon. *)
Definition isRequestEvent (e : Event) : bool :=
  match e with EvLog _ | EvBeaconSend _ => true | _ => false end.

(** What the message handler can do between taking and releasing the lock. *)
Definition isHandlerEvent (e : Event) : bool :=
  match e with
  | EvLog _ | EvWaitSync | EvNewContract _ _ | EvCall _ _ _
  | EvGetNodeAccountTransactor | EvExecTx _ _ _ => true
  | _ => false
  end.

Definition isClientEvent (d : Dyn) : bool :=
  match d with DynClientEvent _ _ => true | _ => false end.

(** ** Unit conversion *)

(** Wei in a gwei and in an ether, the display unit: the spec's example has
    [1000000000] gwei shown as [1.0]. *)
Definition WEI_PER_GWEI : Z := 1000000000.
Definition WEI_PER_ETH : Z := 1000000000000000000.

(** Modelled from the spec: [eth.GweiToWei], whose file is not among those
    verified.  The spec has the Chain Gateway offer unit conversions between
    smallest-unit integers and display-scale floating values, and has the
    handler pass the reported balance converted to the base denomination.
    The conversion is taken to be the exact one: the gwei amount the float
    denotes, times the number of wei in a gwei, with any fraction of a wei
    dropped.  Zeros, infinities and NaN give [0]. *)
Definition GweiToWei_exact (gwei : float64) : Z :=
  match gwei with
  | S754_finite s m e =>
      let wei :=
        if 0 <=? e then Z.pos m * 2 ^ e * WEI_PER_GWEI
        else (Z.pos m * WEI_PER_GWEI) / 2 ^ (- e) in
      if s then - wei else wei
  | _ => 0
  end.

(** ** The decision step *)

(** The interactions of the decision step of [handleBeaconClientMessage],
    once the status is read: the two branches of the Go code, as a list. *)
Definition decisionTrace `{Imports} (w : World) (m : ServerMessage) (a : Address) (status : Z)
    : list Event :=
  if status =? STAKING then
    [EvLog (LogMinipool "Minipool %s is ready for logout..." a);
     EvGetNodeAccountTransactor] ++
    match GetNodeAccountTransactor w with
    | Some err => [EvLog (LogError "" err)]
    | None =>
        [logoutTx a;
         match ExecuteContractTransaction w "rocketNodeWatchtower" "logoutMinipool"
                                          [ArgAddress a] with
         | Some err => EvLog (LogError "Error logging out minipool: " err)
         | None => EvLog (LogMinipool "Minipool %s was successfully logged out" a)
         end]
    end
  else if (status =? LOGGED_OUT) && (Status_Code m =? "withdrawable")%string then
    let balanceWei := GweiToWei (float64_of_int (Balance m)) in
    [EvLog (LogMinipool "Minipool %s is ready for withdrawal..." a);
     EvGetNodeAccountTransactor] ++
    match GetNodeAccountTransactor w with
    | Some err => [EvLog (LogError "" err)]
    | None =>
        [withdrawTx a balanceWei;
         match ExecuteContractTransaction w "rocketNodeWatchtower" "withdrawMinipool"
                                          [ArgAddress a; ArgBigInt balanceWei] with
         | Some err => EvLog (LogError "Error withdrawing minipool: " err)
         | None => EvLog (LogWithdrawn a balanceWei)
         end]
    end
  else [].

(** The value [checkInterval] has in [scheduleCheckMinipools] when the timer
    is created. *)
Definition nextCheckInterval (w : World) : Z :=
  let checkInterval :=
    match call_getMinipoolCheckInterval w with
    | inr checkIntervalSeconds => ParseDuration_seconds checkIntervalSeconds
    | inl _ => 0
    end in
  if checkInterval =? 0 then DEFAULT_CHECK_MINIPOOLS_INTERVAL else checkInterval.

(** ** The goroutines *)

(** What can happen next in the process once [start] has launched its two
    goroutines: the trust ticker fires, an armed re-arm timer fires, or a
    value arrives on the beacon message channel. *)
Inductive Step :=
| TrustTick (w : World)
| TimerFires (w : World)
| Delivery (w : World) (eventData : Dyn).

Definition step `{Imports} (st : Step) : Act unit :=
  match st with
  | TrustTick w => checkTrusted w
  | TimerFires w => onTimer w
  | Delivery w eventData => onChannelValue w eventData
  end.

(** A run of steps.  A step that ends blocked leaves its goroutine parked
    and the others go on from the state it reached, so the run continues. *)
Fixpoint run `{Imports} (steps : list Step) (s : Sys) : Sys * list Event :=
  match steps with
  | [] => (s, [])
  | st :: rest =>
      let '(_, s1, t1) := step st s in
      let '(s2, t2) := run rest s1 in
      (s2, t1 ++ t2)
  end.

(** A step that stands the process down, when it is updating: a trust check
    that reads the flag as false. *)
Definition isStandDown (st : Step) : bool :=
  match st with
  | TrustTick w =>
      match call_getTrusted w (Account_Address (fst (GetNodeAccount w))) with
      | inr false => true
      | _ => false
      end
  | _ => false
  end.

(** What every step keeps of the state [s] it starts from, and when its
    result [r] has a send on a channel: only on the stop channel, once, when
    the step takes the process from updating to not updating. *)
Definition stepKeeps (s : Sys) (r : Exit unit * Sys * list Event) : Prop :=
  stopCheckMinipools (proc (sysOf r)) = stopCheckMinipools (proc s) /\
  beaconMessageChannel (proc (sysOf r)) = beaconMessageChannel (proc s) /\
  nextChan (sysOf r) = nextChan s /\
  forall c,
    List.filter (isSendOn c) (traceOf r) =
    if updatingMinipools (proc s) && negb (updatingMinipools (proc (sysOf r)))
    then (if Nat.eqb (stopCheckMinipools (proc s)) c
          then [EvChanSend (stopCheckMinipools (proc s))] else [])
    else [].

(** ** Handlers running concurrently *)

(** For the interleaving of several handler calls a transaction is split in
    two moments, its submission and its completion; every other interaction
    is one moment. *)
Inductive Atom :=
| Plain (e : Event)
| TxBegin (e : Event)
| TxEnd (e : Event).

Definition atoms (e : Event) : list Atom :=
  if isTx e then [TxBegin e; TxEnd e] else [Plain e].

Definition program (t : list Event) : list Atom := List.concat (List.map atoms t).

(** The mutex and, for every handler call, what it still has to do. *)
Record Conf := {
  held : bool;
  threads : list (list Atom)
}.

(** Thread [i] takes its next moment.  [Lock] needs the mutex free; a
    finished thread, or one waiting for the mutex, cannot move. *)
Definition cstep (i : nat) (c : Conf) : option Conf :=
  match threads c !! i with
  | Some (a :: rest) =>
      match a with
      | Plain EvLock =>
          if held c then None
          else Some {| held := true; threads := <[i := rest]> (threads c) |}
      | Plain EvUnlock =>
          Some {| held := false; threads := <[i := rest]> (threads c) |}
      | _ => Some {| held := held c; threads := <[i := rest]> (threads c) |}
      end
  | _ => None
  end.

Fixpoint crun (schedule : list nat) (c : Conf) : option Conf :=
  match schedule with
  | [] => Some c
  | i :: rest =>
      match cstep i c with
      | Some c' => crun rest c'
      | None => None
      end
  end.

(** A thread has a transaction in flight when it has submitted it and the
    completion is what it does next. *)
Definition inFlight (remaining : list Atom) : bool :=
  match remaining with TxEnd _ :: _ => true | _ => false end.

(** The moments at which a thread takes or releases the mutex. *)
Definition isLockAtom (a : Atom) : bool :=
  match a with
  | Plain EvLock | Plain EvUnlock => true
  | _ => false
  end.

(** A thread inside the critical section: what remains is free of mutex
    operations up to a final unlock. *)
Definition critical (remaining : list Atom) : Prop :=
  exists body, remaining = body ++ [Plain EvUnlock]
               /\ Forall (fun a => isLockAtom a = false) body.

(** A thread outside the critical section: it has finished, or it has not
    yet taken the mutex. *)
Definition idle (remaining : list Atom) : Prop :=
  remaining = [] \/ critical (List.tl remaining) /\ List.hd_error remaining = Some (Plain EvLock).

(** The mutex is held exactly when one thread, the owner, is inside the
    critical section; all other threads are outside. *)
Definition lockInvariant (c : Conf) : Prop :=
  exists owner : option nat,
    held c = match owner with Some _ => true | None => false end /\
    forall i remaining,
      threads c !! i = Some remaining ->
      if decide (owner = Some i) then critical remaining else idle remaining.

(** One handler call: the answers it will get, the message, and the process
    as it finds it. *)
Record Call := {
  call_world : World;
  call_data : Bytes;
  call_sys : Sys
}.

Definition handlerProgram `{Imports} (c : Call) : list Atom :=
  program (traceOf (onBeaconClientMessage (call_world c) (call_data c) (call_sys c))).

Definition concurrentHandlers `{Imports} (calls : list Call) : Conf :=
  {| held := false; threads := List.map handlerProgram calls |}.

(** ** Sample data *)

(** Sample values for the imported names: two distinct lifecycle constants
    and the exact conversion. *)
Definition sampleImports : Imports :=
  {| STAKING := 2; LOGGED_OUT := 3; GweiToWei := GweiToWei_exact |}.

Definition sampleMessage (code : string) (balance : Z) : ServerMessage :=
  {| Message := "validator_status"; Pubkey := "pubkeyA";
     Status_Code := code; Balance := balance |}.

(** A world whose every call succeeds; the parameters fix the message the
    decoder yields, the on-chain status, the trusted flag and the answers of
    the account manager. *)
Definition sampleWorld (m : ServerMessage) (status : Z) (trusted : bool)
    (account : Account * option GoError) (transactor : option GoError)
    (discovered : GoError + gmap string Address) : World :=
  {| json_Unmarshal := fun _ => inr m;
     json_Marshal := fun _ => inr [];
     GetNodeAccount := account;
     GetNodeAccountTransactor := transactor;
     call_getTrusted := fun _ => inr trusted;
     call_getMinipoolCheckInterval := inr 30;
     NewContract := fun _ _ => None;
     call_getStatus := fun _ => inr status;
     GetActiveMinipoolsByValidatorPubkey := discovered;
     Beacon_Send := fun _ => None;
     ExecuteContractTransaction := fun _ _ _ => None |}.

Definition sampleAccount : Account := {| Account_Address := 4096 |}.

Definition sampleMinipools : gmap string Address :=
  <["pubkeyA" := 7]> (<["pubkeyB" := 8]> ∅).

(** A process that manages [sampleMinipools] and is updating. *)
Definition sampleSys : Sys :=
  {| proc := {| updatingMinipools := true;
                stopCheckMinipools := 0%nat;
                beaconMessageChannel := 1%nat;
                activeMinipools := sampleMinipools;
                txLock := false |};
     nextChan := 2%nat;
     parked := [0%nat] |}.

(** ** More readers of traces and steps *)

Definition isUnsubscribe (e : Event) : bool :=
  match e with EvRemoveSubscriber _ _ => true | _ => false end.

Definition isTrustTick (st : Step) : bool :=
  match st with TrustTick _ => true | _ => false end.

(** The sends a discovery cycle makes for a list of entries: one for each
    entry whose request encodes, carrying the encoding of that entry's
    pubkey under the tag [get_validator_status]. *)
Definition statusRequestsFor (w : World) (entries : list (string * Address)) : list Event :=
  flat_map
    (fun entry =>
       match json_Marshal w {| cMessage := "get_validator_status"; cPubkey := fst entry |} with
       | inr payload => [EvBeaconSend payload]
       | inl _ => []
       end)
    entries.

(** What holds of the timers between any two steps: at most one re-arm
    goroutine is parked, it waits on the stop channel of the process, none
    is parked while the process is not updating, and the mutex is free. *)
Definition timersInvariant (s : Sys) : Prop :=
  (length (parked s) <= 1)%nat /\
  Forall (fun c => c = stopCheckMinipools (proc s)) (parked s) /\
  (updatingMinipools (proc s) = false -> parked s = []) /\
  txLock (proc s) = false.

(** * Package bls

    The wrapper around the BLS12-381 library: the byte-level helpers
    ([concatMsgAndDomain], [Domain], [ComputeDomain]), the decoders with
    their length checks, the padding of a marshalled secret key, the public
    key cache, and aggregation.  The library itself ([bls12]) and the cache
    ([ristretto]) are collaborators: what they compute is read from a
    [Bls12] record, and keys and signatures the library mutates in place
    live in a memory of cells. *)

Module bls.

(** [byte(v)] for an integer [v]: its low eight bits. *)
Definition byte_of_Z (v : Z) : Byte.byte :=
  match Byte.of_N (Z.to_N (v mod 256)) with
  | Some b => b
  | None => Byte.x00
  end.

Definition Z_of_byte (b : Byte.byte) : Z := Z.of_N (Byte.to_N b).

(** [copy(dst, src)]: the first [min(len(dst), len(src))] elements of [dst]
    are overwritten; the value is [dst] afterwards. *)
Definition copy (dst src : Bytes) : Bytes :=
  let n := Nat.min (length dst) (length src) in
  firstn n src ++ skipn n dst.

(** The eight bytes [binary.LittleEndian.PutUint64] writes for [v]:
    [byte(v)], [byte(v >> 8)], ..., [byte(v >> 56)]. *)
Definition uint64_le (v : Z) : Bytes :=
  List.map (fun i => byte_of_Z (Z.shiftr v (8 * Z.of_nat i))) (seq 0 8).

(** The number eight bytes spell, least significant first. *)
Fixpoint le_value (b : Bytes) : Z :=
  match b with
  | [] => 0
  | x :: rest => Z_of_byte x + 256 * le_value rest
  end.

Definition DomainByteLength : nat := 4.
Definition ForkVersionByteLength : nat := 4.
Definition BLSSecretKeyLength : nat := 32.
Definition BLSPubkeyLength : nat := 48.
Definition BLSSignatureLength : nat := 96.
Definition concatMsgDomainSize : nat := 40.

(** [func concatMsgAndDomain(msg []byte, domain uint64) []byte] *)
Definition concatMsgAndDomain (msg : Bytes) (domain : Z) : Bytes :=
  let b := repeat Byte.x00 concatMsgDomainSize in
  (* binary.LittleEndian.PutUint64(b[32:], domain) *)
  let b := firstn 32 b ++ copy (skipn 32 b) (uint64_le domain) in
  (* copy(b[0:32], msg) *)
  let b := copy (firstn 32 b) msg ++ skipn 32 b in
  b.

(** [[4]byte] *)
Record Bytes4 := { b0 : Byte.byte; b1 : Byte.byte; b2 : Byte.byte; b3 : Byte.byte }.

(** [a[:]] *)
Definition slice4 (a : Bytes4) : Bytes := [b0 a; b1 a; b2 a; b3 a].

(** The array whose slice [l] is, for a slice of four bytes. *)
Definition array4 (l : Bytes) : Bytes4 :=
  {| b0 := nth 0 l Byte.x00; b1 := nth 1 l Byte.x00;
     b2 := nth 2 l Byte.x00; b3 := nth 3 l Byte.x00 |}.

Definition zero4 : Bytes4 :=
  {| b0 := Byte.x00; b1 := Byte.x00; b2 := Byte.x00; b3 := Byte.x00 |}.

(** [func Domain(domainType [DomainByteLength]byte, forkVersion
    [ForkVersionByteLength]byte) []byte] *)
Definition Domain (domainType forkVersion : Bytes4) : Bytes :=
  let b := [] in
  let b := b ++ firstn 4 (slice4 domainType) in
  let b := b ++ firstn 4 (slice4 forkVersion) in
  b.

(** [func ComputeDomain(domainType [DomainByteLength]byte, forkVersion []byte)
    []byte]; the nil slice is [None]. *)
Definition ComputeDomain (domainType : Bytes4) (forkVersion : option Bytes) : Bytes :=
  let forkVersion :=
    match forkVersion with
    | None => [Byte.x00; Byte.x00; Byte.x00; Byte.x00] (* Genesis fork version *)
    | Some v => v
    end in
  let forkBytes := array4 (copy (slice4 zero4) forkVersion) in
  Domain domainType forkBytes.

(** What the library [bls12] computes.  Deserialisation fails with an error
    or yields a value; [Add] is the group operation a receiver is updated
    with; the three verifications are the library's. *)
Class Bls12 := {
  SecretKeyVal : Type;
  PublicKeyVal : Type;
  SignVal : Type;
  sk_Deserialize : Bytes -> GoError + SecretKeyVal;
  sk_Serialize : SecretKeyVal -> Bytes;
  pk_zero : PublicKeyVal;
  pk_Deserialize : Bytes -> GoError + PublicKeyVal;
  pk_Add : PublicKeyVal -> PublicKeyVal -> PublicKeyVal;
  sign_zero : SignVal;
  sign_Deserialize : Bytes -> GoError + SignVal;
  sign_Serialize : SignVal -> Bytes;
  sign_Add : SignVal -> SignVal -> SignVal;
  lib_VerifyAggregateHashes : SignVal -> list PublicKeyVal -> list Bytes -> bool;
  lib_AggregateVerify : SignVal -> list PublicKeyVal -> Bytes -> bool;
  lib_FastAggregateVerify : SignVal -> list PublicKeyVal -> Bytes -> bool
}.

Section Wrapper.

Context `{Bls12}.

(** The memory: the [bls12.PublicKey] and [bls12.Sign] objects by location,
    the next free location, and [pubkeyCache], from the string [string(pub)]
    to the cached key.  A [*PublicKey] or [*Signature] is the location of the
    library object its field points to; no method reassigns that field. *)
Record Mem := {
  pubkeys : gmap nat PublicKeyVal;
  signs : gmap nat SignVal;
  nextLoc : nat;
  pubkeyCache : gmap string nat
}.

(** [errors.Wrap(err, msg)] *)
Definition Wrap (err : GoError) (msg : string) : GoError := (msg ++ ": " ++ err)%string.

(** [func SecretKeyFromBytes(priv []byte)], which returns a [*SecretKey]
    and an error; a secret key
    is never updated in place and is kept as its value. *)
Definition SecretKeyFromBytes (priv : Bytes) : GoError + SecretKeyVal :=
  if negb (Nat.eqb (length priv) BLSSecretKeyLength) then
    inl "secret key must be 32 bytes"
  else
    match sk_Deserialize priv with
    | inl err => inl (Wrap err "could not unmarshal bytes into secret key")
    | inr secKey => inr secKey
    end.

(** [func (s *SecretKey) Marshal() []byte] *)
Definition SecretKey_Marshal (s : SecretKeyVal) : Bytes :=
  let keyBytes := sk_Serialize s in
  if (length keyBytes <? BLSSecretKeyLength)%nat then
    let emptyBytes := repeat Byte.x00 (BLSSecretKeyLength - length keyBytes) in
    emptyBytes ++ keyBytes
  else keyBytes.

(** [func (p *PublicKey) Copy()], which returns a [*PublicKey] and an
    error: [np := *p.p] copies
    the library object into a new one; [None] is the nil dereference.  The
    error it returns is always nil. *)
Definition Copy (p : nat) (m : Mem) : option (nat * Mem) :=
  match pubkeys m !! p with
  | None => None
  | Some np =>
      Some (nextLoc m,
            {| pubkeys := <[nextLoc m := np]> (pubkeys m);
               signs := signs m;
               nextLoc := S (nextLoc m);
               pubkeyCache := pubkeyCache m |})
  end.

(** [func (p *PublicKey) Aggregate(p2 *PublicKey) *PublicKey]:
    [p.p.Add(p2.p)] updates the receiver's object, and the receiver is
    returned. *)
Definition Aggregate (p p2 : nat) (m : Mem) : option (nat * Mem) :=
  match pubkeys m !! p, pubkeys m !! p2 with
  | Some v, Some v2 =>
      Some (p,
            {| pubkeys := <[p := pk_Add v v2]> (pubkeys m);
               signs := signs m;
               nextLoc := nextLoc m;
               pubkeyCache := pubkeyCache m |})
  | _, _ => None
  end.

(** [func PublicKeyFromBytes(pub []byte)], which returns a [*PublicKey] and
    an error.  Whether the
    cache keeps what [Set] is given is the cache's choice, [admitted]. *)
Definition PublicKeyFromBytes (admitted : bool) (pub : Bytes) (m : Mem)
    : option ((GoError + nat) * Mem) :=
  if negb (Nat.eqb (length pub) BLSPubkeyLength) then
    Some (inl "public key must be 48 bytes", m)
  else
    match pubkeyCache m !! string_of_list_byte pub with
    | Some cv =>
        match Copy cv m with
        | Some (copied, m1) => Some (inr copied, m1)
        | None => None
        end
    | None =>
        (* pubKey := &bls12.PublicKey{} *)
        let pubKey := nextLoc m in
        let m1 := {| pubkeys := <[pubKey := pk_zero]> (pubkeys m);
                     signs := signs m;
                     nextLoc := S (nextLoc m);
                     pubkeyCache := pubkeyCache m |} in
        match pk_Deserialize pub with
        | inl err => Some (inl (Wrap err "could not unmarshal bytes into public key"), m1)
        | inr v =>
            let m2 := {| pubkeys := <[pubKey := v]> (pubkeys m1);
                         signs := signs m1;
                         nextLoc := nextLoc m1;
                         pubkeyCache := pubkeyCache m1 |} in
            let pubkeyObj := pubKey in
            match Copy pubkeyObj m2 with
            | None => None
            | Some (copiedKey, m3) =>
                let m4 :=
                  if admitted then
                    {| pubkeys := pubkeys m3;
                       signs := signs m3;
                       nextLoc := nextLoc m3;
                       pubkeyCache := <[string_of_list_byte pub := copiedKey]> (pubkeyCache m3) |}
                  else m3 in
                Some (inr pubkeyObj, m4)
            end
        end
    end.

(** [func SignatureFromBytes(sig []byte)], which returns a [*Signature] and
    an error. *)
Definition SignatureFromBytes (sig : Bytes) (m : Mem) : (GoError + nat) * Mem :=
  if negb (Nat.eqb (length sig) BLSSignatureLength) then
    (inl "signature must be 96 bytes", m)
  else
    let signature := nextLoc m in
    let m1 := {| pubkeys := pubkeys m;
                 signs := <[signature := sign_zero]> (signs m);
                 nextLoc := S (nextLoc m);
                 pubkeyCache := pubkeyCache m |} in
    match sign_Deserialize sig with
    | inl err => (inl (Wrap err "could not unmarshal bytes into signature"), m1)
    | inr v =>
        (inr signature,
         {| pubkeys := pubkeys m1;
            signs := <[signature := v]> (signs m1);
            nextLoc := nextLoc m1;
            pubkeyCache := pubkeyCache m1 |})
    end.

(** [signature.Add(sigs[i].s)] for [i] from [1]: [None] is the nil
    dereference. *)
Fixpoint addAll (signature : nat) (rest : list nat) (m : Mem) : option Mem :=
  match rest with
  | [] => Some m
  | s :: rest' =>
      match signs m !! signature, signs m !! s with
      | Some acc, Some v =>
          addAll signature rest'
                 {| pubkeys := pubkeys m;
                    signs := <[signature := sign_Add acc v]> (signs m);
                    nextLoc := nextLoc m;
                    pubkeyCache := pubkeyCache m |}
      | _, _ => None
      end
  end.

(** [func AggregateSignatures(sigs []*Signature) *Signature]; the result is
    [None] for the nil pointer.  The error of [Deserialize] is dropped: on
    failure the new signature is left as it was made. *)
Definition AggregateSignatures (sigs : list nat) (m : Mem) : option (option nat * Mem) :=
  match sigs with
  | [] => Some (None, m)
  | first :: rest =>
      match signs m !! first with
      | None => None
      | Some v0 =>
          let marshalled := sign_Serialize v0 in
          let signature := nextLoc m in
          let made :=
            match sign_Deserialize marshalled with
            | inr v => v
            | inl _ => sign_zero
            end in
          let m1 := {| pubkeys := pubkeys m;
                       signs := <[signature := made]> (signs m);
                       nextLoc := S (nextLoc m);
                       pubkeyCache := pubkeyCache m |} in
          match addAll signature rest m1 with
          | Some m2 => Some (Some signature, m2)
          | None => None
          end
      end
  end.

(** [rawKeys = append(rawKeys, *pubKeys[i].p)] over all [i]: the values of
    the keys, [None] for a nil dereference. *)
Fixpoint rawKeysOf (pubKeys : list nat) (m : Mem) : option (list PublicKeyVal) :=
  match pubKeys with
  | [] => Some []
  | p :: rest =>
      match pubkeys m !! p, rawKeysOf rest m with
      | Some v, Some vs => Some (v :: vs)
      | _, _ => None
      end
  end.

(** [func (s *Signature) AggregateVerify(pubKeys []*PublicKey, msgs
    [][32]byte) bool]; a message is the 32 bytes of its array. *)
Definition AggregateVerify (s : nat) (pubKeys : list nat) (msgs : list Bytes) (m : Mem)
    : option bool :=
  let size := length pubKeys in
  if Nat.eqb size 0 then Some false
  else if negb (Nat.eqb size (length msgs)) then Some false
  else
    let msgSlices := List.concat msgs in
    match rawKeysOf pubKeys m, signs m !! s with
    | Some rawKeys, Some sv => Some (lib_AggregateVerify sv rawKeys msgSlices)
    | _, _ => None
    end.

(** [func (s *Signature) VerifyAggregate(pubKeys []*PublicKey, msg
    [][32]byte) bool] *)
Definition VerifyAggregate (s : nat) (pubKeys : list nat) (msg : list Bytes) (m : Mem)
    : option bool :=
  let size := length pubKeys in
  if Nat.eqb size 0 then Some false
  else if negb (Nat.eqb size (length msg)) then Some false
  else
    let hashes := msg in
    match rawKeysOf pubKeys m, signs m !! s with
    | Some rawKeys, Some sv => Some (lib_VerifyAggregateHashes sv rawKeys hashes)
    | _, _ => None
    end.

(** [func (s *Signature) FastAggregateVerify(pubKeys []*PublicKey, msg
    [32]byte) bool] *)
Definition FastAggregateVerify (s : nat) (pubKeys : list nat) (msg : Bytes) (m : Mem)
    : option bool :=
  if Nat.eqb (length pubKeys) 0 then Some false
  else
    match rawKeysOf pubKeys m, signs m !! s with
    | Some rawKeys, Some sv => Some (lib_FastAggregateVerify sv rawKeys msg)
    | _, _ => None
    end.

(** A memory is well formed when nothing lives at or beyond the next free
    location and every cached key is a live public key. *)
Definition wellFormed (m : Mem) : Prop :=
  (forall l, (nextLoc m <= l)%nat -> pubkeys m !! l = None /\ signs m !! l = None) /\
  (forall pub c, pubkeyCache m !! pub = Some c -> is_Some (pubkeys m !! c)).

(** The value of the key a cache entry holds. *)
Definition cachedValue (m : Mem) (pub : Bytes) : option PublicKeyVal :=
  match pubkeyCache m !! string_of_list_byte pub with
  | Some c => pubkeys m !! c
  | None => None
  end.

End Wrapper.

(** A library for examples: keys and signatures are integers, serialised as
    one byte, added as integers; every 48 byte string is the key [7]. *)
Definition sampleLib : Bls12 :=
  {| SecretKeyVal := Z; PublicKeyVal := Z; SignVal := Z;
     sk_Deserialize := fun b => inr (le_value b);
     sk_Serialize := fun v => [byte_of_Z v];
     pk_zero := 0;
     pk_Deserialize := fun _ => inr 7;
     pk_Add := Z.add;
     sign_zero := 0;
     sign_Deserialize := fun b => inr (le_value b);
     sign_Serialize := fun v => [byte_of_Z v];
     sign_Add := Z.add;
     lib_VerifyAggregateHashes := fun _ _ _ => true;
     lib_AggregateVerify := fun _ _ _ => true;
     lib_FastAggregateVerify := fun _ _ _ => true |}.

Definition emptyMem `{Bls12} : Mem :=
  {| pubkeys := ∅; signs := ∅; nextLoc := 0%nat; pubkeyCache := ∅ |}.

End bls.

(** * Properties *)

(** ** Binary64 conversion of small integers *)

Lemma digits2_pos_size p : digits2_pos p = Pos.size p.
Proof. induction p; simpl; congruence. Qed.

Lemma digits2_pos_bound p : Z.pos p < 2 ^ 53 -> Z.pos (digits2_pos p) <= 53.
Proof.
  intros Hp. rewrite digits2_pos_size.
  destruct (Z_le_gt_dec (Z.pos (Pos.size p)) 53) as [|Hgt]; [assumption|exfalso].
  assert (Hle : Z.pos (2 ^ Pos.size p) <= Z.pos p~0)
    by (apply Pos2Z.pos_le_pos, Pos.size_le).
  rewrite Pos2Z.inj_pow in Hle. change (Z.pos p~0) with (2 * Z.pos p) in Hle.
  assert (Hpow : 2 ^ 54 <= 2 ^ Z.pos (Pos.size p)) by (apply Z.pow_le_mono_r; lia).
  change (2 ^ 54) with (2 * 2 ^ 53) in Hpow. lia.
Qed.

Lemma iter_xO_value k p : Z.pos (Pos.iter xO p k) = Z.pos p * 2 ^ Z.pos k.
Proof.
  revert p. induction k using Pos.peano_ind; intros p.
  - simpl. lia.
  - rewrite Pos.iter_succ, Pos2Z.inj_xO, IHk.
    rewrite Pos2Z.inj_succ, Z.pow_succ_r by lia. lia.
Qed.

Lemma iter_xO_digits k p :
  digits2_pos (Pos.iter xO p k) = (digits2_pos p + k)%positive.
Proof.
  revert p. induction k using Pos.peano_ind; intros p.
  - simpl. lia.
  - rewrite Pos.iter_succ. simpl. rewrite IHk. lia.
Qed.

(** A mantissa that already has 53 digits is kept as it is. *)
Lemma binary_round_aux_canonical sx m e :
  Z.pos (digits2_pos m) = 53 -> -1074 <= e <= 971 ->
  binary_round_aux 53 1024 sx (Z.pos m) e loc_Exact = S754_finite sx m e.
Proof.
  intros Hd He.
  assert (Hs : fexp 53 1024 (Zdigits2 (Z.pos m) + e) - e = 0).
  { unfold Zdigits2. rewrite Hd. unfold fexp, emin. lia. }
  unfold binary_round_aux, shr_fexp. rewrite Hs.
  cbn [shr shr_record_of_loc shr_m loc_of_shr_record round_nearest_even].
  rewrite Hs. cbn [shr shr_record_of_loc shr_m].
  destruct (e <=? 1024 - 53) eqn:E; [reflexivity|lia].
Qed.

(** Below [2^53] the conversion only shifts the mantissa left. *)
Lemma float64_of_small_pos p :
  Z.pos p < 2 ^ 53 ->
  exists m k, float64_of_int (Z.pos p) = S754_finite false m (- k)
              /\ 0 <= k /\ Z.pos m = Z.pos p * 2 ^ k.
Proof.
  intros Hp. pose proof (digits2_pos_bound p Hp) as Hd.
  unfold float64_of_int, binary_normalize, binary_round.
  assert (Hf : fexp 53 1024 (Z.pos (digits2_pos p) + 0) = Z.pos (digits2_pos p) - 53).
  { unfold fexp, emin. lia. }
  rewrite Hf. unfold shl_align.
  destruct (Z.pos (digits2_pos p) - 53 - 0) as [|q|q] eqn:Hsub; try lia.
  - exists p, 0. split; [|lia].
    apply binary_round_aux_canonical; lia.
  - exists (Pos.iter xO p q), (Z.pos q). split; [|split; [lia|apply iter_xO_value]].
    replace (Z.pos (digits2_pos p) - 53) with (- Z.pos q) by lia.
    apply binary_round_aux_canonical; [rewrite iter_xO_digits|]; lia.
Qed.

(** Up to [2^53] gwei the conversion to [float64] loses nothing, and the
    exact conversion to wei multiplies by [WEI_PER_GWEI]. *)
Lemma GweiToWei_exact_small x :
  0 <= x <= 2 ^ 53 -> GweiToWei_exact (float64_of_int x) = x * WEI_PER_GWEI.
Proof.
  intros [H0 H1].
  destruct (Z.eq_dec x (2 ^ 53)) as [->|Hne]; [vm_compute; reflexivity|].
  destruct x as [|p|p]; [reflexivity| |lia].
  destruct (float64_of_small_pos p) as (m & k & -> & Hk & Hm); [lia|].
  unfold GweiToWei_exact.
  destruct (0 <=? - k) eqn:E.
  - assert (k = 0) by lia. subst k. rewrite Hm. change (- 0) with 0.
    rewrite Z.pow_0_r. lia.
  - rewrite Z.opp_involutive, Hm.
    replace (Z.pos p * 2 ^ k * WEI_PER_GWEI) with (Z.pos p * WEI_PER_GWEI * 2 ^ k) by lia.
    apply Z.div_mul. apply Z.pow_nonzero; lia.
Qed.

(** Two neighbouring balances above [2^53] become the same [float64], so
    whatever [eth.GweiToWei] computes, it computes the same for both. *)
Lemma float64_of_int_collision :
  float64_of_int (2 ^ 53 + 1) = float64_of_int (2 ^ 53).
Proof. vm_compute. reflexivity. Qed.

(** Up to [2^53] the conversion to [float64] loses nothing: the float
    denotes the integer it was made from. *)
Lemma float64_int_value_small x :
  0 <= x <= 2 ^ 53 -> float64_int_value (float64_of_int x) = Some x.
Proof.
  intros [H0 H1].
  destruct (Z.eq_dec x (2 ^ 53)) as [->|Hne]; [vm_compute; reflexivity|].
  destruct x as [|p|p]; [reflexivity| |lia].
  destruct (float64_of_small_pos p) as (m & k & -> & Hk & Hm); [lia|].
  unfold float64_int_value.
  destruct (0 <=? - k) eqn:E.
  - assert (k = 0) by lia. subst k. rewrite Hm. change (- 0) with 0.
    rewrite Z.pow_0_r. f_equal; lia.
  - rewrite Z.opp_involutive, Hm.
    assert (Hpow : 2 ^ k <> 0) by (apply Z.pow_nonzero; lia).
    rewrite Z.mod_mul by exact Hpow. rewrite Z.eqb_refl.
    rewrite Z.div_mul by exact Hpow. f_equal; lia.
Qed.

(** ** The message handler *)

Ltac destruct_scrutinee :=
  match goal with
  | |- context [match ?x with _ => _ end] =>
      lazymatch x with
      | context [match _ with _ => _ end] => fail
      | _ => destruct x eqn:?; simpl
      end
  end.

Section HandlerFacts.

Context `{Imports}.

Lemma relock_id s :
  txLock (proc s) = false ->
  with_proc (set_txLock false) (with_proc (set_txLock true) s) = s.
Proof. destruct s as [[u c b a l] n p]; simpl; intros ->; reflexivity. Qed.

(** The handler body only reads the process and always returns. *)
Lemma handle_pure w data s :
  exists t, handleBeaconClientMessage w data s = (Returned tt, s, t).
Proof.
  unfold handleBeaconClientMessage, getMinipoolStatus, bind, Println, WaitSync,
    emit, ret, getProc.
  repeat destruct_scrutinee; eauto.
Qed.

(** The handler body never touches the mutex. *)
Lemma handle_no_lock_events w data s :
  List.filter isLockEvent (traceOf (handleBeaconClientMessage w data s)) = [].
Proof.
  unfold handleBeaconClientMessage, getMinipoolStatus, bind, Println, WaitSync,
    emit, ret, getProc, traceOf.
  repeat destruct_scrutinee; reflexivity.
Qed.

(** What the body does depends on the process only through the active set. *)
Lemma handle_trace_lock_irrelevant w data s b :
  traceOf (handleBeaconClientMessage w data (with_proc (set_txLock b) s)) =
  traceOf (handleBeaconClientMessage w data s).
Proof.
  unfold handleBeaconClientMessage, getMinipoolStatus, bind, Println, WaitSync,
    emit, ret, getProc, traceOf. simpl.
  repeat destruct_scrutinee; reflexivity.
Qed.

Lemma onBeaconClientMessage_free w data s :
  txLock (proc s) = false ->
  onBeaconClientMessage w data s =
  (Returned tt, s,
   EvLock :: traceOf (handleBeaconClientMessage w data s) ++ [EvUnlock]).
Proof.
  intros Hl. rewrite <- (handle_trace_lock_irrelevant w data s true).
  unfold onBeaconClientMessage.
  unfold bind at 1. unfold Lock. rewrite Hl.
  unfold bind at 1.
  destruct (handle_pure w data (with_proc (set_txLock true) s)) as [t ->].
  unfold bind, Unlock, ret; simpl. rewrite relock_id by assumption. reflexivity.
Qed.

Lemma onBeaconClientMessage_held w data s :
  txLock (proc s) = true ->
  onBeaconClientMessage w data s = (Blocked, s, []).
Proof.
  intros Hl. unfold onBeaconClientMessage, bind, Lock. rewrite Hl. reflexivity.
Qed.

(** The filters: wrong tag, code not allowed, unknown pubkey. *)
Lemma handle_absent w data s m :
  json_Unmarshal w data = inr m ->
  Message m = "validator_status" ->
  allowedCode (Status_Code m) = true ->
  activeMinipools (proc s) !! Pubkey m = None ->
  handleBeaconClientMessage w data s = (Returned tt, s, []).
Proof.
  intros Hp Hm Hc Ha. unfold handleBeaconClientMessage.
  rewrite Hp, Hm. unfold allowedCode in Hc. simpl. rewrite Hc. simpl.
  unfold bind, getProc. simpl. rewrite Ha. reflexivity.
Qed.

Lemma handle_managed w data s m a status :
  json_Unmarshal w data = inr m ->
  Message m = "validator_status" ->
  allowedCode (Status_Code m) = true ->
  activeMinipools (proc s) !! Pubkey m = Some a ->
  NewContract w a "rocketMinipool" = None ->
  call_getStatus w a = inr status ->
  traceOf (handleBeaconClientMessage w data s) =
  [EvWaitSync; EvNewContract a "rocketMinipool";
   EvCall (BoundAt a "rocketMinipool") "getStatus" []] ++ decisionTrace w m a status.
Proof.
  intros Hp Hm Hc Ha Hn Hs. unfold handleBeaconClientMessage.
  rewrite Hp, Hm. unfold allowedCode in Hc. simpl. rewrite Hc. simpl.
  unfold bind at 1. unfold getProc at 1. simpl. rewrite Ha.
  unfold getMinipoolStatus. rewrite Hn, Hs.
  unfold decisionTrace, logoutTx, withdrawTx, traceOf, bind, WaitSync, Println, emit, ret.
  simpl.
  repeat destruct_scrutinee; reflexivity.
Qed.

End HandlerFacts.

(** ** Claims about the message handler *)

(** C4.  An inbound [validator_status] message with an allowed status code
    whose pubkey is not in [activeMinipools] stops at the map lookup: the
    handler waits for no chain sync, reads nothing from the chain, submits no
    transaction and logs no error; all it does is take and release the lock,
    and the process is left as it was. *)
Theorem unknown_pubkey_is_dropped `{Imports} (w : World) (data : Bytes) (s : Sys)
    (m : ServerMessage) :
  json_Unmarshal w data = inr m ->
  Message m = "validator_status" ->
  allowedCode (Status_Code m) = true ->
  activeMinipools (proc s) !! Pubkey m = None ->
  let t := traceOf (onBeaconClientMessage w data s) in
  List.filter isSyncWait t = [] /\
  List.filter isChainRead t = [] /\
  txs t = [] /\
  List.filter isErrorLog t = [] /\
  List.filter (fun e => negb (isLockEvent e)) t = [] /\
  sysOf (onBeaconClientMessage w data s) = s.
Proof.
  intros Hp Hm Hc Ha t. subst t.
  destruct (txLock (proc s)) eqn:E.
  - rewrite onBeaconClientMessage_held by assumption. simpl. auto 10.
  - rewrite onBeaconClientMessage_free by assumption.
    rewrite (handle_absent w data _ m) by assumption. simpl. auto 10.
Qed.

Lemma unknown_pubkey_is_dropped_witness :
  let w := sampleWorld (sampleMessage "exited" 5) 2 true (sampleAccount, None) None
                       (inr sampleMinipools) in
  let s := StartWatchtowerProcess 0%nat in
  traceOf (@onBeaconClientMessage sampleImports w [] s) = [EvLock; EvUnlock] /\
  txs (traceOf (@onBeaconClientMessage sampleImports w [] s)) = [].
Proof.
  intros w s. split; [vm_compute; reflexivity|].
  apply (@unknown_pubkey_is_dropped sampleImports w [] s (sampleMessage "exited" 5));
    reflexivity.
Defined.

(** C1 (as amended).  For an inbound [validator_status] message with status
    code exited or withdrawable whose pubkey resolves to a minipool address,
    and an on-chain status that was read: when the status is staking, one
    logout transaction is submitted if the node account transactor is
    obtained and none if it is not, and never a withdraw; when the status is
    logged-out and the code is exited, or the status is neither staking nor
    logged-out, no transaction is submitted.  The mutex is free when the
    worker calls the handler. *)
Theorem decision_for_staking_and_no_action `{Imports} (w : World) (data : Bytes)
    (s : Sys) (m : ServerMessage) (a : Address) (status : Z) :
  json_Unmarshal w data = inr m ->
  Message m = "validator_status" ->
  allowedCode (Status_Code m) = true ->
  activeMinipools (proc s) !! Pubkey m = Some a ->
  NewContract w a "rocketMinipool" = None ->
  call_getStatus w a = inr status ->
  txLock (proc s) = false ->
  STAKING <> LOGGED_OUT ->
  let t := traceOf (onBeaconClientMessage w data s) in
  (status = STAKING ->
     txs t = match GetNodeAccountTransactor w with
             | None => [logoutTx a]
             | Some _ => []
             end /\
     List.filter isWithdraw t = []) /\
  ((status = LOGGED_OUT /\ Status_Code m = "exited") \/
   (status <> STAKING /\ status <> LOGGED_OUT) ->
     txs t = []).
Proof.
  intros Hp Hm Hc Ha Hn Hs Hl Hne t. subst t.
  rewrite onBeaconClientMessage_free by assumption.
  rewrite (handle_managed w data s m a status) by assumption.
  unfold decisionTrace. split.
  - intros ->. rewrite Z.eqb_refl.
    destruct (GetNodeAccountTransactor w); simpl.
    + split; reflexivity.
    + destruct (ExecuteContractTransaction w _ _ _); simpl; split; reflexivity.
  - intros [[-> Hcode] | [H1 H2]].
    + destruct (LOGGED_OUT =? STAKING) eqn:E; [apply Z.eqb_eq in E; congruence|].
      rewrite Hcode. simpl. rewrite andb_false_r. reflexivity.
    + destruct (status =? STAKING) eqn:E1; [apply Z.eqb_eq in E1; congruence|].
      destruct (status =? LOGGED_OUT) eqn:E2; [apply Z.eqb_eq in E2; congruence|].
      reflexivity.
Qed.

Lemma decision_for_staking_and_no_action_witness :
  let w := sampleWorld (sampleMessage "exited" 5) 2 true (sampleAccount, None) None
                       (inr sampleMinipools) in
  txs (traceOf (@onBeaconClientMessage sampleImports w [] sampleSys)) = [logoutTx 7] /\
  List.filter isWithdraw (traceOf (@onBeaconClientMessage sampleImports w [] sampleSys)) = [].
Proof.
  intros w.
  apply (@decision_for_staking_and_no_action sampleImports w [] sampleSys
           (sampleMessage "exited" 5) 7 2);
    try reflexivity.
  vm_compute. discriminate.
Defined.

(** C1 as it is stated fails: with status code exited, a managed pubkey and
    on-chain status staking, no logout transaction is submitted when the node
    account transactor cannot be obtained. *)
Lemma staking_without_transactor_submits_nothing :
  let w := sampleWorld (sampleMessage "exited" 5) 2 true (sampleAccount, None)
                       (Some "no node account") (inr sampleMinipools) in
  json_Unmarshal w [] = inr (sampleMessage "exited" 5) /\
  activeMinipools (proc sampleSys) !! "pubkeyA" = Some 7 /\
  call_getStatus w 7 = inr (@STAKING sampleImports) /\
  txs (traceOf (@onBeaconClientMessage sampleImports w [] sampleSys)) = [].
Proof. vm_compute. auto. Qed.

(** C2 (as amended).  For an inbound [validator_status] message with status
    code withdrawable whose pubkey resolves to a minipool whose on-chain
    status reads logged-out: one withdraw transaction is submitted if the
    node account transactor is obtained and none if it is not, and never a
    logout; its balance argument is [eth.GweiToWei], whatever that function
    computes, of the reported balance converted to [float64]; and that
    [float64] denotes the reported balance itself for every reported balance
    from [0] to [2^53] gwei.  The mutex is free when the worker calls the
    handler. *)
Theorem withdraw_for_logged_out_and_withdrawable `{Imports} (w : World) (data : Bytes)
    (s : Sys) (m : ServerMessage) (a : Address) :
  json_Unmarshal w data = inr m ->
  Message m = "validator_status" ->
  Status_Code m = "withdrawable" ->
  activeMinipools (proc s) !! Pubkey m = Some a ->
  NewContract w a "rocketMinipool" = None ->
  call_getStatus w a = inr LOGGED_OUT ->
  txLock (proc s) = false ->
  STAKING <> LOGGED_OUT ->
  let t := traceOf (onBeaconClientMessage w data s) in
  txs t = match GetNodeAccountTransactor w with
          | None => [withdrawTx a (GweiToWei (float64_of_int (Balance m)))]
          | Some _ => []
          end /\
  List.filter isLogout t = [] /\
  (0 <= Balance m <= 2 ^ 53 ->
   float64_int_value (float64_of_int (Balance m)) = Some (Balance m)).
Proof.
  intros Hp Hm Hc Ha Hn Hs Hl Hne t. subst t.
  rewrite onBeaconClientMessage_free by assumption.
  rewrite (handle_managed w data s m a LOGGED_OUT); try assumption.
  2: { unfold allowedCode. rewrite Hc. reflexivity. }
  unfold decisionTrace.
  destruct (LOGGED_OUT =? STAKING) eqn:E; [apply Z.eqb_eq in E; congruence|].
  rewrite Z.eqb_refl, Hc. simpl.
  split; [|split].
  - destruct (GetNodeAccountTransactor w); simpl; [reflexivity|].
    destruct (ExecuteContractTransaction w _ _ _); reflexivity.
  - destruct (GetNodeAccountTransactor w); simpl; [reflexivity|].
    destruct (ExecuteContractTransaction w _ _ _); reflexivity.
  - apply float64_int_value_small.
Qed.

(** The balance of the spec's example: for [1000000000] gwei one withdraw
    transaction is submitted, whose argument is the conversion of the
    [float64] that denotes [1000000000]. *)
Lemma withdraw_for_logged_out_and_withdrawable_witness :
  let w := sampleWorld (sampleMessage "withdrawable" 1000000000) 3 true
                       (sampleAccount, None) None (inr sampleMinipools) in
  txs (traceOf (@onBeaconClientMessage sampleImports w [] sampleSys)) =
    [withdrawTx 7 (@GweiToWei sampleImports (float64_of_int 1000000000))] /\
  List.filter isLogout (traceOf (@onBeaconClientMessage sampleImports w [] sampleSys)) = [] /\
  (0 <= 1000000000 <= 2 ^ 53 ->
   float64_int_value (float64_of_int 1000000000) = Some 1000000000).
Proof.
  intros w.
  apply (@withdraw_for_logged_out_and_withdrawable sampleImports w [] sampleSys
           (sampleMessage "withdrawable" 1000000000) 7);
    try reflexivity.
  vm_compute. discriminate.
Defined.

(** C2 as it is stated fails twice over.  With code withdrawable, a managed
    pubkey and on-chain status logged-out, no withdraw transaction is
    submitted when the node account transactor cannot be obtained.  And the
    balance argument is not the exact conversion for every reported balance:
    whatever [eth.GweiToWei] computes, the reported balances [2^53] and
    [2^53 + 1] gwei are passed on as the same amount, which is then not the
    conversion to wei of at least one of them. *)
Lemma withdraw_not_always_submitted_nor_exact :
  let w1 := sampleWorld (sampleMessage "withdrawable" 1000000000) 3 true
                        (sampleAccount, None) (Some "no node account")
                        (inr sampleMinipools) in
  let w2 := sampleWorld (sampleMessage "withdrawable" (2 ^ 53)) 3 true
                        (sampleAccount, None) None (inr sampleMinipools) in
  let w3 := sampleWorld (sampleMessage "withdrawable" (2 ^ 53 + 1)) 3 true
                        (sampleAccount, None) None (inr sampleMinipools) in
  (activeMinipools (proc sampleSys) !! "pubkeyA" = Some 7 /\
   call_getStatus w1 7 = inr (@LOGGED_OUT sampleImports) /\
   txs (traceOf (@onBeaconClientMessage sampleImports w1 [] sampleSys)) = []) /\
  (forall conv : float64 -> Z,
     let imports := {| STAKING := 2; LOGGED_OUT := 3; GweiToWei := conv |} in
     exists wei,
       txs (traceOf (@onBeaconClientMessage imports w2 [] sampleSys)) = [withdrawTx 7 wei] /\
       txs (traceOf (@onBeaconClientMessage imports w3 [] sampleSys)) = [withdrawTx 7 wei] /\
       (wei <> 2 ^ 53 * WEI_PER_GWEI \/ wei <> (2 ^ 53 + 1) * WEI_PER_GWEI)).
Proof.
  intros w1 w2 w3. split.
  - vm_compute. repeat split; discriminate.
  - intros conv imports. exists (conv (float64_of_int (2 ^ 53))).
    split; [reflexivity|]. split.
    + rewrite <- float64_of_int_collision. reflexivity.
    + destruct (Z.eq_dec (conv (float64_of_int (2 ^ 53))) (2 ^ 53 * WEI_PER_GWEI)) as [->|Hne].
      * right. vm_compute. discriminate.
      * left. exact Hne.
Qed.

(** The loss is in the conversion to [float64], before [eth.GweiToWei] is
    called: whatever that function computes, the balances [2^53] and
    [2^53 + 1] lead to the same withdraw transaction. *)
Lemma withdraw_balance_collision `{Imports} (w : World) (data : Bytes) (s : Sys)
    (m1 m2 : ServerMessage) :
  Message m1 = Message m2 -> Pubkey m1 = Pubkey m2 -> Status_Code m1 = Status_Code m2 ->
  Balance m1 = 2 ^ 53 -> Balance m2 = 2 ^ 53 + 1 ->
  forall a status,
    decisionTrace w m1 a status = decisionTrace w m2 a status.
Proof.
  intros _ _ Hc H1 H2 a status. unfold decisionTrace.
  rewrite H1, H2, Hc, float64_of_int_collision. reflexivity.
Qed.

(** ** Discovery, start and stop *)

Lemma filter_nil_of_Forall (P f : Event -> bool) (t : list Event) :
  (forall e, P e = true -> f e = false) ->
  Forall (fun e => P e = true) t ->
  List.filter f t = [].
Proof.
  intros Himp Hall. induction Hall as [|e t He _ IH]; [reflexivity|].
  simpl. rewrite (Himp e He). exact IH.
Qed.

Section DiscoveryFacts.

Lemma requestValidatorStatus_spec w entry s :
  exists t, requestValidatorStatus w entry s = (Returned tt, s, t)
            /\ Forall (fun e => isRequestEvent e = true) t.
Proof.
  destruct entry as [pubkey a].
  unfold requestValidatorStatus, bind, Println, emit, ret.
  repeat destruct_scrutinee; eexists; split; try reflexivity; repeat constructor.
Qed.

Lemma forEach_requests_spec w l s :
  exists t, forEach l (requestValidatorStatus w) s = (Returned tt, s, t)
            /\ Forall (fun e => isRequestEvent e = true) t.
Proof.
  induction l as [|entry l IH]; simpl.
  - exists []. split; [reflexivity|constructor].
  - destruct (requestValidatorStatus_spec w entry s) as (t1 & E1 & F1).
    destruct IH as (t2 & E2 & F2).
    exists (t1 ++ t2). unfold bind. rewrite E1, E2. split; [reflexivity|].
    apply Forall_app; auto.
Qed.


Lemma scheduleCheckMinipools_spec w s :
  scheduleCheckMinipools w s =
  (Returned tt, parkedOn (stopCheckMinipools (proc s)) s,
   [EvWaitSync;
    EvCall (Registered "rocketMinipoolSettings") "getMinipoolCheckInterval" [];
    EvLog (LogInterval (nextCheckInterval w));
    EvArmTimer (nextCheckInterval w) (stopCheckMinipools (proc s))]).
Proof. reflexivity. Qed.

Lemma checkMinipools_failed w s err :
  GetActiveMinipoolsByValidatorPubkey w = inl err ->
  checkMinipools w s =
  (Returned tt, s,
   [EvLog (LogText "Checking active minipools..."); EvWaitSync; EvGetActiveMinipools;
    EvLog (LogError "Error getting active minipools: " err)]).
Proof.
  intros He. unfold checkMinipools. rewrite He. reflexivity.
Qed.

Lemma checkMinipools_succeeded w s discovered :
  GetActiveMinipoolsByValidatorPubkey w = inr discovered ->
  exists requests,
    Forall (fun e => isRequestEvent e = true) requests /\
    checkMinipools w s =
    (Returned tt,
     parkedOn (stopCheckMinipools (proc s))
              (with_proc (set_activeMinipools discovered) s),
     [EvLog (LogText "Checking active minipools..."); EvWaitSync; EvGetActiveMinipools]
       ++ requests ++
     [EvWaitSync;
      EvCall (Registered "rocketMinipoolSettings") "getMinipoolCheckInterval" [];
      EvLog (LogInterval (nextCheckInterval w));
      EvArmTimer (nextCheckInterval w) (stopCheckMinipools (proc s))]).
Proof.
  intros Hd. unfold checkMinipools. rewrite Hd.
  destruct (forEach_requests_spec w (map_to_list discovered)
              (with_proc (set_activeMinipools discovered) s)) as (t & Et & Ft).
  exists t. split; [exact Ft|].
  unfold bind at 1. unfold Println at 1, emit at 1.
  unfold bind at 1. unfold WaitSync at 1, emit at 1.
  unfold bind at 1. unfold emit at 1.
  unfold bind at 1. unfold modifyProc at 1.
  unfold bind at 1. unfold getProc at 1.
  unfold bind at 1. cbn [proc with_proc activeMinipools set_activeMinipools].
  rewrite Et. rewrite scheduleCheckMinipools_spec. reflexivity.
Qed.

(** A discovery cycle returns; it changes nothing of the process but the
    active set, makes no channel, and sends on no channel. *)
Lemma checkMinipools_frame w s :
  exists t s',
    checkMinipools w s = (Returned tt, s', t) /\
    updatingMinipools (proc s') = updatingMinipools (proc s) /\
    stopCheckMinipools (proc s') = stopCheckMinipools (proc s) /\
    beaconMessageChannel (proc s') = beaconMessageChannel (proc s) /\
    txLock (proc s') = txLock (proc s) /\
    nextChan s' = nextChan s /\
    (forall c, List.filter (isSendOn c) t = []) /\
    List.filter isSubscribe t = [] /\
    List.filter isDiscovery t = [EvGetActiveMinipools].
Proof.
  destruct (GetActiveMinipoolsByValidatorPubkey w) as [err|discovered] eqn:E.
  - rewrite (checkMinipools_failed w s err E).
    eexists _, _. split; [reflexivity|]. repeat split; reflexivity.
  - destruct (checkMinipools_succeeded w s discovered E) as (t & Ft & ->).
    eexists _, _. split; [reflexivity|].
    repeat split; try reflexivity.
    + intros c. simpl. rewrite List.filter_app.
      rewrite (filter_nil_of_Forall isRequestEvent); [reflexivity| |exact Ft].
      intros [] He; try discriminate; reflexivity.
    + simpl. rewrite List.filter_app.
      rewrite (filter_nil_of_Forall isRequestEvent); [reflexivity| |exact Ft].
      intros [] He; try discriminate; reflexivity.
    + simpl. rewrite List.filter_app.
      rewrite (filter_nil_of_Forall isRequestEvent); [reflexivity| |exact Ft].
      intros [] He; try discriminate; reflexivity.
Qed.

Lemma startUpdateMinipools_updating w s :
  updatingMinipools (proc s) = true ->
  startUpdateMinipools w s = (Returned tt, s, []).
Proof.
  intros Hu. unfold startUpdateMinipools, bind, getProc. simpl. rewrite Hu. reflexivity.
Qed.

Lemma startUpdateMinipools_idle w s :
  updatingMinipools (proc s) = false ->
  exists t s1,
    checkMinipools w (with_proc (set_updatingMinipools true) s) = (Returned tt, s1, t) /\
    startUpdateMinipools w s =
    (Returned tt, s1,
     EvLog (LogText "Node is trusted, starting watchtower process...") :: t ++
     [EvAddSubscriber "beacon.client.message" (beaconMessageChannel (proc s))]).
Proof.
  intros Hu.
  destruct (checkMinipools_frame w (with_proc (set_updatingMinipools true) s))
    as (t & s1 & Ec & _ & _ & Hb & _).
  exists t, s1. split; [exact Ec|].
  unfold startUpdateMinipools.
  unfold bind at 1. unfold getProc at 1. cbn [proc]. rewrite Hu.
  unfold bind at 1. unfold modifyProc at 1.
  unfold bind at 1. unfold Println at 1, emit at 1.
  unfold bind at 1. rewrite Ec.
  unfold bind, getProc, emit. simpl. rewrite Hb. reflexivity.
Qed.

Lemma stopUpdateMinipools_idle s :
  updatingMinipools (proc s) = false ->
  stopUpdateMinipools s = (Returned tt, s, []).
Proof.
  intros Hu. unfold stopUpdateMinipools, bind, getProc. simpl. rewrite Hu. reflexivity.
Qed.

(** Stand-down of an updating process: the send on [stopCheckMinipools]
    completes when a re-arm goroutine is parked on it, and blocks when none
    is. *)
Lemma stopUpdateMinipools_updating s :
  updatingMinipools (proc s) = true ->
  stopUpdateMinipools s =
  match remove_first (stopCheckMinipools (proc s)) (parked s) with
  | Some rest =>
      (Returned tt,
       {| proc := set_updatingMinipools false (proc s);
          nextChan := nextChan s; parked := rest |},
       [EvLog (LogText "Node is untrusted, stopping watchtower process...");
        EvChanSend (stopCheckMinipools (proc s));
        EvRemoveSubscriber "beacon.client.message" (beaconMessageChannel (proc s))])
  | None =>
      (Blocked, with_proc (set_updatingMinipools false) s,
       [EvLog (LogText "Node is untrusted, stopping watchtower process...");
        EvChanSend (stopCheckMinipools (proc s))])
  end.
Proof.
  intros Hu. unfold stopUpdateMinipools.
  unfold bind at 1. unfold getProc at 1. cbn [proc]. rewrite Hu. cbn [negb].
  unfold bind, modifyProc, Println, emit, chanSend. simpl.
  destruct (remove_first (stopCheckMinipools (proc s)) (parked s)); reflexivity.
Qed.

(** Discovery submits no transaction. *)
Lemma checkMinipools_submits_nothing w s : txs (traceOf (checkMinipools w s)) = [].
Proof.
  destruct (GetActiveMinipoolsByValidatorPubkey w) as [err|discovered] eqn:E.
  - rewrite (checkMinipools_failed w s err E). reflexivity.
  - destruct (checkMinipools_succeeded w s discovered E) as (t & Ft & ->).
    unfold txs, traceOf. simpl. rewrite List.filter_app.
    rewrite (filter_nil_of_Forall isRequestEvent); [reflexivity| |exact Ft].
    intros [] He; try discriminate; reflexivity.
Qed.

(** Start-supervision always returns, with the flag set. *)
Lemma startUpdateMinipools_sets_flag w s :
  exists t s1,
    startUpdateMinipools w s = (Returned tt, s1, t) /\
    updatingMinipools (proc s1) = true.
Proof.
  destruct (updatingMinipools (proc s)) eqn:Hu.
  - exists [], s. rewrite startUpdateMinipools_updating by assumption. auto.
  - destruct (startUpdateMinipools_idle w s Hu) as (t & s1 & Ec & ->).
    destruct (checkMinipools_frame w (with_proc (set_updatingMinipools true) s))
      as (t' & s1' & Ec' & Hu' & _).
    rewrite Ec in Ec'. injection Ec' as <- <-.
    eexists _, _. split; [reflexivity|exact Hu'].
Qed.

End DiscoveryFacts.

(** C6.  After a discovery cycle whose query succeeds, [activeMinipools] is
    the discovered map itself: every discovered entry is there, and a pubkey
    that is not in the discovery is not there, whatever the map held
    before. *)
Theorem discovery_replaces_active_set (w : World) (s : Sys)
    (discovered : gmap string Address) :
  GetActiveMinipoolsByValidatorPubkey w = inr discovered ->
  let after := activeMinipools (proc (sysOf (checkMinipools w s))) in
  after = discovered /\
  (forall pubkey a, discovered !! pubkey = Some a -> after !! pubkey = Some a) /\
  (forall pubkey, discovered !! pubkey = None -> after !! pubkey = None).
Proof.
  intros Hd after.
  assert (E : after = discovered).
  { subst after. destruct (checkMinipools_succeeded w s discovered Hd) as (t & _ & ->).
    reflexivity. }
  rewrite E. auto.
Qed.

Lemma discovery_replaces_active_set_witness :
  let discovered : gmap string Address := <["pubkeyC" := 9]> ∅ in
  let w := sampleWorld (sampleMessage "exited" 5) 2 true (sampleAccount, None) None
                       (inr discovered) in
  activeMinipools (proc sampleSys) !! "pubkeyA" = Some 7 /\
  activeMinipools (proc (sysOf (checkMinipools w sampleSys))) !! "pubkeyA"
    = None /\
  activeMinipools (proc (sysOf (checkMinipools w sampleSys))) !! "pubkeyC"
    = Some 9.
Proof.
  intros discovered w.
  destruct (discovery_replaces_active_set w sampleSys discovered eq_refl)
    as (_ & Hin & Hout).
  split; [reflexivity|]. split; [apply Hout|apply Hin]; reflexivity.
Defined.

(** C7.  From every process state, start-supervision called twice in a row
    ends as one call does, in the same state and with the same interactions:
    one discovery cycle and one subscription when the process was not
    updating, none when it was.  Stand-down called twice in a row ends as
    one call does.  After the first call of either pair the flag
    [updatingMinipools] has the value that makes the second call return at
    its guard. *)
Theorem start_and_stop_are_idempotent (w1 w2 : World) (s : Sys) :
  (startUpdateMinipools w1 >> startUpdateMinipools w2) s = startUpdateMinipools w1 s /\
  (stopUpdateMinipools >> stopUpdateMinipools) s = stopUpdateMinipools s /\
  updatingMinipools (proc (sysOf (startUpdateMinipools w1 s))) = true /\
  updatingMinipools (proc (sysOf (stopUpdateMinipools s))) = false /\
  length (List.filter isDiscovery (traceOf ((startUpdateMinipools w1 >> startUpdateMinipools w2) s)))
    = (if updatingMinipools (proc s) then 0 else 1)%nat /\
  length (List.filter isSubscribe (traceOf ((startUpdateMinipools w1 >> startUpdateMinipools w2) s)))
    = (if updatingMinipools (proc s) then 0 else 1)%nat.
Proof.
  assert (Hstart : exists t s1, startUpdateMinipools w1 s = (Returned tt, s1, t) /\
            updatingMinipools (proc s1) = true /\
            length (List.filter isDiscovery t) = (if updatingMinipools (proc s) then 0 else 1)%nat /\
            length (List.filter isSubscribe t) = (if updatingMinipools (proc s) then 0 else 1)%nat).
  { destruct (updatingMinipools (proc s)) eqn:Hu.
    - exists [], s. rewrite startUpdateMinipools_updating by assumption. auto.
    - destruct (startUpdateMinipools_idle w1 s Hu) as (t & s1 & Ec & ->).
      destruct (checkMinipools_frame w1 (with_proc (set_updatingMinipools true) s))
        as (t' & s1' & Ec' & Hu' & _ & _ & _ & _ & _ & Hsub & Hdis).
      rewrite Ec in Ec'. injection Ec' as <- <-.
      eexists _, _. split; [reflexivity|]. split; [exact Hu'|].
      cbn [List.filter isDiscovery isSubscribe].
      rewrite !List.filter_app, Hsub, Hdis. split; reflexivity. }
  destruct Hstart as (t & s1 & Es & Hu1 & Hd & Hsb).
  assert (E2 : (startUpdateMinipools w1 >> startUpdateMinipools w2) s = (Returned tt, s1, t)).
  { unfold bind. rewrite Es, (startUpdateMinipools_updating w2 s1 Hu1), app_nil_r.
    reflexivity. }
  rewrite E2, Es. cbn [sysOf traceOf fst snd].
  split; [reflexivity|].
  assert (Hstop : (stopUpdateMinipools >> stopUpdateMinipools) s = stopUpdateMinipools s /\
                  updatingMinipools (proc (sysOf (stopUpdateMinipools s))) = false).
  { destruct (updatingMinipools (proc s)) eqn:Hu.
    - unfold bind. rewrite (stopUpdateMinipools_updating s Hu).
      destruct (remove_first (stopCheckMinipools (proc s)) (parked s)).
      + rewrite stopUpdateMinipools_idle by reflexivity. rewrite app_nil_r. auto.
      + auto.
    - unfold bind. rewrite (stopUpdateMinipools_idle s Hu).
      rewrite (stopUpdateMinipools_idle s Hu). auto. }
  destruct Hstop as (Hs2 & Hf). auto.
Qed.

(** ** The trust check and the message worker *)

Lemma checkTrusted_unfold (w : World) (s : Sys) :
  checkTrusted w s =
  let a := Account_Address (fst (GetNodeAccount w)) in
  let '(r, s', t) :=
    match call_getTrusted w a with
    | inl err => Println (LogError "Error retrieving node trusted status: " err) s
    | inr true => startUpdateMinipools w s
    | inr false => stopUpdateMinipools s
    end in
  (r, s', [EvWaitSync; EvGetNodeAccount;
           EvCall (Registered "rocketNodeAPI") "getTrusted" [ArgAddress a]] ++ t).
Proof.
  unfold checkTrusted, bind, WaitSync, emit. cbn zeta.
  destruct (call_getTrusted w _) as [err|[|]].
  - reflexivity.
  - destruct (startUpdateMinipools w s) as [[r s'] t]. reflexivity.
  - destruct (stopUpdateMinipools s) as [[r s'] t]. reflexivity.
Qed.

(** The trust check and the timer submit no transaction: the message
    handler is the only writer. *)
Lemma checkTrusted_submits_nothing (w : World) (s : Sys) :
  txs (traceOf (checkTrusted w s)) = [].
Proof.
  rewrite checkTrusted_unfold. cbn zeta.
  destruct (call_getTrusted w _) as [err|[|]].
  - reflexivity.
  - destruct (updatingMinipools (proc s)) eqn:Hu.
    + rewrite startUpdateMinipools_updating by assumption. reflexivity.
    + destruct (startUpdateMinipools_idle w s Hu) as (t & s1 & Ec & ->).
      pose proof (checkMinipools_submits_nothing w (with_proc (set_updatingMinipools true) s))
        as Ht.
      rewrite Ec in Ht. unfold txs, traceOf in *. simpl in *.
      rewrite List.filter_app, Ht. reflexivity.
  - destruct (updatingMinipools (proc s)) eqn:Hu.
    + rewrite (stopUpdateMinipools_updating s Hu).
      destruct (remove_first _ _); reflexivity.
    + rewrite (stopUpdateMinipools_idle s Hu). reflexivity.
Qed.

Lemma onTimer_submits_nothing (w : World) (s : Sys) :
  txs (traceOf (onTimer w s)) = [].
Proof.
  unfold onTimer. destruct (parked s); [reflexivity|].
  apply checkMinipools_submits_nothing.
Qed.

(** C10.  When retrieving the node account fails, the error is dropped and
    the check goes on: the trusted flag is still read from the contract,
    keyed by the address of whatever account value came back with the error,
    which is the zero address when that value is the zero account; and the
    answer is acted upon, so a node reported trusted starts updating. *)
Theorem trust_check_ignores_account_error (w : World) (s : Sys)
    (account : Account) (err : GoError) :
  GetNodeAccount w = (account, Some err) ->
  let getTrustedOf a := EvCall (Registered "rocketNodeAPI") "getTrusted" [ArgAddress a] in
  (exists rest,
     traceOf (checkTrusted w s) =
     [EvWaitSync; EvGetNodeAccount; getTrustedOf (Account_Address account)] ++ rest) /\
  (account = zeroAccount ->
     In (getTrustedOf zeroAddress) (traceOf (checkTrusted w s))) /\
  (call_getTrusted w (Account_Address account) = inr true ->
     updatingMinipools (proc (sysOf (checkTrusted w s))) = true) /\
  (forall e, call_getTrusted w (Account_Address account) = inl e ->
     List.filter isErrorLog (traceOf (checkTrusted w s)) =
     [EvLog (LogError "Error retrieving node trusted status: " e)]).
Proof.
  intros Hacc getTrustedOf.
  rewrite checkTrusted_unfold, Hacc. cbn [fst]. cbn zeta.
  split; [|split; [|split]].
  - destruct (match call_getTrusted w (Account_Address account) with
              | inl e => _ | inr b => _ end) as [[r s'] t].
    exists t. reflexivity.
  - intros ->.
    destruct (match call_getTrusted w _ with inl e => _ | inr b => _ end) as [[r s'] t].
    cbn [traceOf snd]. apply in_or_app. left. right. right. left. reflexivity.
  - intros Ht. rewrite Ht.
    destruct (startUpdateMinipools_sets_flag w s) as (t & s1 & -> & Hu). exact Hu.
  - intros e He. rewrite He. reflexivity.
Qed.

Lemma trust_check_ignores_account_error_witness :
  let w := sampleWorld (sampleMessage "exited" 5) 2 true
                       (zeroAccount, Some "Node account does not exist") None
                       (inr sampleMinipools) in
  In (EvCall (Registered "rocketNodeAPI") "getTrusted" [ArgAddress zeroAddress])
     (traceOf (checkTrusted w (StartWatchtowerProcess 0%nat))) /\
  updatingMinipools (proc (sysOf (checkTrusted w (StartWatchtowerProcess 0%nat)))) = true.
Proof.
  intros w.
  destruct (trust_check_ignores_account_error w (StartWatchtowerProcess 0%nat)
              zeroAccount "Node account does not exist" eq_refl)
    as (_ & Hkey & Hgo & _).
  split; [apply Hkey|apply Hgo]; reflexivity.
Defined.

(** C9.  The message worker casts every value it receives to the struct of
    client and message bytes without checking: a value of that type is
    handed, by its message bytes, to [onBeaconClientMessage], which returns
    when the mutex is free; a value of any other dynamic type makes the
    worker panic, with nothing logged and nothing else done. *)
Theorem worker_type_assertion_is_unchecked `{Imports} (w : World) (eventData : Dyn)
    (s : Sys) :
  txLock (proc s) = false ->
  (forall c message,
     eventData = DynClientEvent c message ->
     onChannelValue w eventData s = onBeaconClientMessage w message s /\
     exitOf (onChannelValue w eventData s) = Returned tt) /\
  (isClientEvent eventData = false ->
     onChannelValue w eventData s = (Panicked, s, [])).
Proof.
  intros Hl. split.
  - intros c message ->. split; [reflexivity|].
    cbn [onChannelValue]. rewrite onBeaconClientMessage_free by assumption. reflexivity.
  - destruct eventData; intros He; try discriminate; reflexivity.
Qed.

Lemma worker_type_assertion_is_unchecked_witness :
  let w := sampleWorld (sampleMessage "exited" 5) 2 true (sampleAccount, None) None
                       (inr sampleMinipools) in
  @onChannelValue sampleImports w (DynBytes []) sampleSys = (Panicked, sampleSys, []) /\
  exitOf (@onChannelValue sampleImports w (DynClientEvent 0%nat []) sampleSys) = Returned tt.
Proof.
  intros w. split.
  - apply (@worker_type_assertion_is_unchecked sampleImports w (DynBytes []) sampleSys);
      reflexivity.
  - apply (proj1 (@worker_type_assertion_is_unchecked sampleImports w
                    (DynClientEvent 0%nat []) sampleSys eq_refl) 0%nat []).
    reflexivity.
Defined.

(** ** The stop channel over a run *)

Section RunFacts.

Context `{Imports}.

Lemma handle_events w data s :
  Forall (fun e => isHandlerEvent e = true)
         (traceOf (handleBeaconClientMessage w data s)).
Proof.
  unfold handleBeaconClientMessage, getMinipoolStatus, bind, Println, WaitSync,
    emit, ret, getProc, traceOf.
  repeat destruct_scrutinee; repeat constructor.
Qed.

(** The handler leaves the runtime state as it found it and sends on no
    channel. *)
Lemma onBeaconClientMessage_frame w data s :
  sysOf (onBeaconClientMessage w data s) = s /\
  forall c, List.filter (isSendOn c) (traceOf (onBeaconClientMessage w data s)) = [].
Proof.
  destruct (txLock (proc s)) eqn:Hl.
  - rewrite onBeaconClientMessage_held by assumption. auto.
  - rewrite onBeaconClientMessage_free by assumption. split; [reflexivity|].
    intros c. cbn [traceOf snd List.filter isSendOn].
    rewrite List.filter_app.
    rewrite (filter_nil_of_Forall isHandlerEvent); [reflexivity| |apply handle_events].
    intros [] He; try discriminate; reflexivity.
Qed.

Lemma checkMinipools_keeps w s : stepKeeps s (checkMinipools w s).
Proof.
  destruct (checkMinipools_frame w s)
    as (t & s' & -> & Hu & Hs & Hb & _ & Hn & Hsend & _).
  unfold stepKeeps. cbn [sysOf traceOf fst snd].
  repeat split; try assumption.
  intros c. rewrite Hu, Hsend. destruct (updatingMinipools (proc s)); reflexivity.
Qed.

Lemma startUpdateMinipools_keeps w s : stepKeeps s (startUpdateMinipools w s).
Proof.
  destruct (updatingMinipools (proc s)) eqn:Hu.
  - rewrite startUpdateMinipools_updating by assumption.
    unfold stepKeeps. cbn [sysOf traceOf fst snd]. rewrite Hu. auto.
  - destruct (startUpdateMinipools_idle w s Hu) as (t & s1 & Ec & ->).
    destruct (checkMinipools_frame w (with_proc (set_updatingMinipools true) s))
      as (t' & s1' & Ec' & _ & Hs & Hb & _ & Hn & Hsend & _).
    rewrite Ec in Ec'. injection Ec' as <- <-.
    unfold stepKeeps. cbn [sysOf traceOf fst snd]. rewrite Hu.
    repeat split; try assumption.
    intros c. cbn [List.filter isSendOn andb]. rewrite List.filter_app, Hsend. reflexivity.
Qed.

Lemma stopUpdateMinipools_keeps s : stepKeeps s (stopUpdateMinipools s).
Proof.
  destruct (updatingMinipools (proc s)) eqn:Hu.
  - rewrite (stopUpdateMinipools_updating s Hu).
    unfold stepKeeps.
    destruct (remove_first _ _); cbn [sysOf traceOf fst snd]; rewrite Hu;
      (repeat split; try reflexivity);
      intros c; simpl; destruct (Nat.eqb _ c); reflexivity.
  - rewrite (stopUpdateMinipools_idle s Hu).
    unfold stepKeeps. cbn [sysOf traceOf fst snd]. rewrite Hu. auto.
Qed.

Lemma checkTrusted_keeps w s : stepKeeps s (checkTrusted w s).
Proof.
  rewrite checkTrusted_unfold. cbn zeta.
  destruct (call_getTrusted w _) as [err|[|]].
  - unfold stepKeeps, sysOf, traceOf. simpl. repeat split; try reflexivity.
    intros c. destruct (updatingMinipools (proc s)); reflexivity.
  - pose proof (startUpdateMinipools_keeps w s) as K.
    destruct (startUpdateMinipools w s) as [[r s'] t]. exact K.
  - pose proof (stopUpdateMinipools_keeps s) as K.
    destruct (stopUpdateMinipools s) as [[r s'] t]. exact K.
Qed.

Lemma onTimer_keeps w s : stepKeeps s (onTimer w s).
Proof.
  unfold onTimer. destruct (parked s) as [|c rest].
  - unfold stepKeeps, sysOf, traceOf. simpl. repeat split; try reflexivity.
    intros c. destruct (updatingMinipools (proc s)); reflexivity.
  - exact (checkMinipools_keeps w
             {| proc := proc s; nextChan := nextChan s; parked := rest |}).
Qed.

Lemma onChannelValue_keeps w d s : stepKeeps s (onChannelValue w d s).
Proof.
  assert (Hpanic : stepKeeps s (@panic unit s)).
  { unfold stepKeeps, sysOf, traceOf. simpl. repeat split; try reflexivity.
    intros c. destruct (updatingMinipools (proc s)); reflexivity. }
  destruct d; try exact Hpanic.
  cbn [onChannelValue].
  destruct (onBeaconClientMessage_frame w m s) as (Hs & Hsend).
  unfold stepKeeps. rewrite Hs. repeat split; try reflexivity.
  intros c'. rewrite Hsend. destruct (updatingMinipools (proc s)); reflexivity.
Qed.

Lemma step_keeps st s : stepKeeps s (step st s).
Proof.
  destruct st; [apply checkTrusted_keeps|apply onTimer_keeps|apply onChannelValue_keeps].
Qed.

Lemma run_keeps_channels steps s :
  stopCheckMinipools (proc (fst (run steps s))) = stopCheckMinipools (proc s) /\
  beaconMessageChannel (proc (fst (run steps s))) = beaconMessageChannel (proc s) /\
  nextChan (fst (run steps s)) = nextChan s.
Proof.
  revert s. induction steps as [|st rest IH]; intros s; [simpl; auto|].
  cbn [run]. pose proof (step_keeps st s) as (K1 & K2 & K3 & _).
  destruct (step st s) as [[r s1] t1]. unfold sysOf in K1, K2, K3. simpl in K1, K2, K3.
  specialize (IH s1). destruct (run rest s1) as [s2 t2]. cbn [fst] in *.
  destruct IH as (I1 & I2 & I3). repeat split; congruence.
Qed.

End RunFacts.

(** A process that is updating and has no timer armed performs no discovery
    as long as no step stands it down. *)
Lemma run_without_stand_down `{Imports} (steps : list Step) (s : Sys) :
  updatingMinipools (proc s) = true ->
  parked s = [] ->
  forallb (fun st => negb (isStandDown st)) steps = true ->
  List.filter isDiscovery (snd (run steps s)) = [].
Proof.
  revert s. induction steps as [|st rest IH]; intros s Hu Hp Hsteps; [reflexivity|].
  cbn [forallb] in Hsteps. apply andb_prop in Hsteps as [Hst Hrest].
  assert (Hstep : sysOf (step st s) = s /\ List.filter isDiscovery (traceOf (step st s)) = []).
  { destruct st as [w|w|w d]; cbn [step].
    - rewrite checkTrusted_unfold. cbn zeta. cbn [isStandDown] in Hst.
      destruct (call_getTrusted w _) as [err|[|]]; [auto| |discriminate].
      rewrite startUpdateMinipools_updating by assumption. auto.
    - unfold onTimer. rewrite Hp. auto.
    - destruct d; try (unfold sysOf, traceOf; simpl; auto; fail).
      cbn [onChannelValue].
      destruct (onBeaconClientMessage_frame w m s) as (Hs & _). split; [exact Hs|].
      destruct (txLock (proc s)) eqn:Hl.
      + rewrite onBeaconClientMessage_held by assumption. reflexivity.
      + rewrite onBeaconClientMessage_free by assumption.
        cbn [traceOf snd List.filter isDiscovery]. rewrite List.filter_app.
        rewrite (filter_nil_of_Forall isHandlerEvent); [reflexivity| |apply handle_events].
        intros [] He; try discriminate; reflexivity. }
  destruct Hstep as (Hs & Ht). cbn [run].
  destruct (step st s) as [[r s1] t1]. unfold sysOf, traceOf in Hs, Ht. simpl in Hs, Ht.
  subst s1. specialize (IH s Hu Hp Hrest).
  destruct (run rest s) as [s2 t2]. cbn [snd] in *.
  rewrite List.filter_app, Ht, IH. reflexivity.
Qed.

(** C5.  A discovery cycle whose active-minipool query returns an error logs
    it and stops there: the process (its active set included) is left as it
    was, no status request is sent, no timer is armed and no goroutine is
    parked.  When the cycle was started by a timer, that timer is gone and
    none replaces it.  When the cycle was the one of start-supervision, the
    process is then updating with the timers it had before, and a later
    start-supervision does nothing at all: no discovery follows from it.
    With no timer left, no run of trust checks, timer firings and message
    deliveries performs a discovery unless it stands the process down. *)
Theorem failed_discovery_aborts_cycle `{Imports} (w : World) (s : Sys) (err : GoError) :
  GetActiveMinipoolsByValidatorPubkey w = inl err ->
  checkMinipools w s =
    (Returned tt, s,
     [EvLog (LogText "Checking active minipools..."); EvWaitSync; EvGetActiveMinipools;
      EvLog (LogError "Error getting active minipools: " err)]) /\
  activeMinipools (proc (sysOf (checkMinipools w s))) = activeMinipools (proc s) /\
  parked (sysOf (checkMinipools w s)) = parked s /\
  List.filter isStatusRequest (traceOf (checkMinipools w s)) = [] /\
  List.filter isArmTimer (traceOf (checkMinipools w s)) = [] /\
  List.filter isErrorLog (traceOf (checkMinipools w s)) =
    [EvLog (LogError "Error getting active minipools: " err)] /\
  (parked (sysOf (onTimer w s)) = List.tl (parked s) /\
   activeMinipools (proc (sysOf (onTimer w s))) = activeMinipools (proc s) /\
   List.filter isArmTimer (traceOf (onTimer w s)) = []) /\
  let s1 := sysOf (startUpdateMinipools w s) in
  updatingMinipools (proc s1) = true /\
  parked s1 = parked s /\
  activeMinipools (proc s1) = activeMinipools (proc s) /\
  (forall w', startUpdateMinipools w' s1 = (Returned tt, s1, [])) /\
  (parked s = [] ->
   forall steps, forallb (fun st => negb (isStandDown st)) steps = true ->
                 List.filter isDiscovery (snd (run steps s1)) = []).
Proof.
  intros He.
  rewrite (checkMinipools_failed w s err He). cbn [sysOf traceOf fst snd].
  repeat (split; [reflexivity|]).
  split.
  { unfold onTimer. destruct (parked s) as [|c rest] eqn:Hp.
    - unfold sysOf, traceOf. simpl. auto.
    - rewrite (checkMinipools_failed w _ err He). auto. }
  set (s1 := sysOf (startUpdateMinipools w s)).
  assert (Hs1 : updatingMinipools (proc s1) = true /\ parked s1 = parked s /\
                activeMinipools (proc s1) = activeMinipools (proc s)).
  { subst s1. destruct (updatingMinipools (proc s)) eqn:Hu.
    - rewrite startUpdateMinipools_updating by assumption. simpl. auto.
    - destruct (startUpdateMinipools_idle w s Hu) as (t & s' & Ec & ->).
      rewrite (checkMinipools_failed w _ err He) in Ec.
      injection Ec as <- _. simpl. auto. }
  destruct Hs1 as (Hu & Hp & Ha). repeat (split; [assumption|]).
  split.
  - intros w'. apply startUpdateMinipools_updating. exact Hu.
  - intros Hnone steps Hsteps.
    apply run_without_stand_down; [exact Hu|congruence|exact Hsteps].
Qed.

Lemma failed_discovery_aborts_cycle_witness :
  let w := sampleWorld (sampleMessage "exited" 5) 2 true (sampleAccount, None) None
                       (inl "connection refused") in
  sysOf (checkMinipools w sampleSys) = sampleSys /\
  List.filter isArmTimer (traceOf (checkMinipools w sampleSys)) = [].
Proof.
  intros w.
  destruct (@failed_discovery_aborts_cycle sampleImports w sampleSys
              "connection refused" eq_refl) as (E & _ & _ & _ & Ht & _).
  split; [rewrite E; reflexivity|exact Ht].
Defined.


(** C3 (as amended).  The stop channel is made once, when the process is
    initialised, and never again: after any run of trust checks, timer
    firings and message deliveries the process still holds that channel and
    no channel has been made since.  A step sends on it exactly once when it
    takes the process from updating to not updating, which is the stand-down,
    and no step sends on it otherwise. *)
Theorem stop_channel_made_once_and_sent_at_stand_down `{Imports} (next : Chan)
    (steps : list Step) (st : Step) :
  let s := fst (run steps (StartWatchtowerProcess next)) in
  let r := step st s in
  stopCheckMinipools (proc s) = next /\
  nextChan s = S (S next) /\
  stopCheckMinipools (proc (sysOf r)) = next /\
  nextChan (sysOf r) = S (S next) /\
  List.filter (isSendOn next) (traceOf r) =
    if updatingMinipools (proc s) && negb (updatingMinipools (proc (sysOf r)))
    then [EvChanSend next] else [].
Proof.
  intros s r.
  pose proof (run_keeps_channels steps (StartWatchtowerProcess next)) as (R1 & _ & R3).
  fold s in R1, R3. cbn [StartWatchtowerProcess proc stopCheckMinipools nextChan] in R1, R3.
  pose proof (step_keeps st s) as (K1 & _ & K3 & Ksend). fold r in K1, K3, Ksend.
  specialize (Ksend next). rewrite R1, Nat.eqb_refl in Ksend.
  repeat split; congruence.
Qed.

(** C3 as it is stated fails: the process is started, stood down and started
    again, and the second session finds the stop channel of the first; no
    channel was made in between. *)
Lemma stop_channel_is_not_recreated :
  let trusted := sampleWorld (sampleMessage "exited" 5) 2 true (sampleAccount, None) None
                             (inr sampleMinipools) in
  let untrusted := sampleWorld (sampleMessage "exited" 5) 2 false (sampleAccount, None)
                               None (inr sampleMinipools) in
  let s0 := StartWatchtowerProcess 0%nat in
  let s1 := fst (@run sampleImports [TrustTick trusted] s0) in
  let s2 := fst (@run sampleImports [TrustTick trusted; TrustTick untrusted] s0) in
  let s3 := fst (@run sampleImports
                   [TrustTick trusted; TrustTick untrusted; TrustTick trusted] s0) in
  (updatingMinipools (proc s1) = true /\ updatingMinipools (proc s2) = false /\
   updatingMinipools (proc s3) = true) /\
  stopCheckMinipools (proc s1) = stopCheckMinipools (proc s0) /\
  stopCheckMinipools (proc s3) = stopCheckMinipools (proc s1) /\
  nextChan s3 = nextChan s0.
Proof. vm_compute. auto 10. Qed.

(** ** Handlers running concurrently *)

Lemma program_cons e t : program (e :: t) = atoms e ++ program t.
Proof. reflexivity. Qed.

Lemma program_app t1 t2 : program (t1 ++ t2) = program t1 ++ program t2.
Proof.
  unfold program. rewrite List.map_app, List.concat_app. reflexivity.
Qed.

Lemma program_no_lock_atoms t :
  Forall (fun e => isHandlerEvent e = true) t ->
  Forall (fun a => isLockAtom a = false) (program t).
Proof.
  induction 1 as [|e t He _ IH]; [constructor|].
  rewrite program_cons. apply Forall_app. split; [|exact IH].
  destruct e; try discriminate; repeat constructor.
Qed.

Lemma idle_not_inFlight remaining :
  idle remaining -> inFlight remaining = false.
Proof.
  intros [->|[_ Hh]]; [reflexivity|].
  destruct remaining as [|[] ?]; try discriminate; reflexivity.
Qed.

Lemma idle_cannot_move_when_held i c remaining :
  threads c !! i = Some remaining -> idle remaining -> held c = true ->
  cstep i c = None.
Proof.
  intros Hi [->|[_ Hh]] Hheld; unfold cstep; rewrite Hi; [reflexivity|].
  destruct remaining as [|a rest]; [reflexivity|].
  injection Hh as ->. rewrite Hheld. reflexivity.
Qed.

Section Serialization.

Context `{Imports}.

(** A handler call starts outside the critical section: its program is
    empty (the mutex was not free for it) or is lock, body, unlock. *)
Lemma handlerProgram_idle call : idle (handlerProgram call).
Proof.
  unfold handlerProgram.
  destruct (txLock (proc (call_sys call))) eqn:Hl.
  - rewrite onBeaconClientMessage_held by assumption. left. reflexivity.
  - rewrite onBeaconClientMessage_free by assumption. right.
    cbn [traceOf snd]. rewrite program_cons, program_app.
    cbn [atoms isTx app List.tl List.hd_error]. split; [|reflexivity].
    eexists. split; [reflexivity|].
    apply program_no_lock_atoms, handle_events.
Qed.

Lemma concurrentHandlers_invariant calls : lockInvariant (concurrentHandlers calls).
Proof.
  exists None. split; [reflexivity|].
  intros i remaining Hi. cbn [threads concurrentHandlers] in Hi.
  rewrite list_lookup_fmap in Hi.
  destruct (calls !! i) as [call|]; [|discriminate].
  injection Hi as <-. rewrite decide_False by discriminate.
  apply handlerProgram_idle.
Qed.

End Serialization.

Lemma cstep_invariant i c c' :
  lockInvariant c -> cstep i c = Some c' -> lockInvariant c'.
Proof.
  intros (owner & Hheld & Hthreads) Hstep.
  unfold cstep in Hstep.
  destruct (threads c !! i) as [[|a rest]|] eqn:Hi; try discriminate.
  pose proof (Hthreads i _ Hi) as Hme.
  assert (Hlen : (i < length (threads c))%nat) by (eapply lookup_lt_Some; eassumption).
  destruct (decide (owner = Some i)) as [->|Hother].
  - (* the owner moves *)
    destruct Hme as (body & Hbody & Hfree).
    destruct body as [|b body'].
    + (* it unlocks *)
      injection Hbody as -> ->. injection Hstep as <-.
      exists None. split; [reflexivity|].
      intros j remaining Hj. cbn [threads] in Hj. rewrite decide_False by discriminate.
      destruct (decide (i = j)) as [<-|Hij].
      * rewrite list_lookup_insert_eq in Hj by assumption. injection Hj as <-.
        left. reflexivity.
      * rewrite list_lookup_insert_ne in Hj by assumption.
        specialize (Hthreads j _ Hj). rewrite decide_False in Hthreads by congruence.
        exact Hthreads.
    + (* it moves inside the critical section *)
      injection Hbody as -> ->. inversion Hfree as [|? ? Hb Hrest]; subst.
      assert (Hc' : c' = {| held := held c; threads := <[i := body' ++ [Plain EvUnlock]]> (threads c) |}).
      { destruct b as [[]| |]; try discriminate; congruence. }
      subst c'. exists (Some i). split; [exact Hheld|].
      intros j remaining Hj. cbn [threads] in Hj.
      destruct (decide (i = j)) as [<-|Hij].
      * rewrite list_lookup_insert_eq in Hj by assumption. injection Hj as <-.
        rewrite decide_True by reflexivity. exists body'. auto.
      * rewrite list_lookup_insert_ne in Hj by assumption.
        specialize (Hthreads j _ Hj).
        rewrite decide_False in Hthreads by congruence.
        rewrite decide_False by congruence. exact Hthreads.
  - (* a thread outside moves: it takes the mutex *)
    destruct Hme as [|[Hcrit Hhd]]; [discriminate|].
    injection Hhd as ->. cbn [List.tl] in Hcrit.
    destruct (held c) eqn:Hh; [discriminate|]. injection Hstep as <-.
    destruct owner as [o|]; [discriminate|].
    exists (Some i). split; [reflexivity|].
    intros j remaining Hj. cbn [threads] in Hj.
    destruct (decide (i = j)) as [<-|Hij].
    + rewrite list_lookup_insert_eq in Hj by assumption. injection Hj as <-.
      rewrite decide_True by reflexivity. exact Hcrit.
    + rewrite list_lookup_insert_ne in Hj by assumption.
      specialize (Hthreads j _ Hj). rewrite decide_False in Hthreads by discriminate.
      rewrite decide_False by congruence. exact Hthreads.
Qed.

Lemma crun_invariant schedule c c' :
  lockInvariant c -> crun schedule c = Some c' -> lockInvariant c'.
Proof.
  revert c. induction schedule as [|i rest IH]; intros c Hinv Hrun.
  - injection Hrun as <-. exact Hinv.
  - cbn [crun] in Hrun. destruct (cstep i c) as [c1|] eqn:Hs; [|discriminate].
    eapply IH; [|eassumption]. eapply cstep_invariant; eassumption.
Qed.

(** Under the invariant a thread with a transaction in flight is the owner
    of the mutex. *)
Lemma inFlight_is_owner c i remaining :
  lockInvariant c -> threads c !! i = Some remaining -> inFlight remaining = true ->
  held c = true /\
  forall j, j <> i -> cstep j c = None.
Proof.
  intros (owner & Hheld & Hthreads) Hi Hfl.
  pose proof (Hthreads i _ Hi) as Hme.
  destruct (decide (owner = Some i)) as [->|Hother].
  - split; [exact Hheld|]. intros j Hj.
    destruct (threads c !! j) as [rj|] eqn:Hlj.
    + specialize (Hthreads j _ Hlj). rewrite decide_False in Hthreads by congruence.
      eapply idle_cannot_move_when_held; eassumption.
    + unfold cstep. rewrite Hlj. reflexivity.
  - apply idle_not_inFlight in Hme. congruence.
Qed.

(** C8.  Any number of handler calls run concurrently, in any interleaving
    of their moments: at every point reached, at most one call has a
    transaction in flight; the mutex is held while it is; and no other call
    can make any move until it is done, the others having finished or
    waiting for the mutex.  The trust check and the discovery timer submit
    no transaction, so the handler calls are all the writers there are. *)
Theorem transactions_are_serialized `{Imports} (calls : list Call) (schedule : list nat)
    (c : Conf) :
  crun schedule (concurrentHandlers calls) = Some c ->
  (forall i j ri rj,
     threads c !! i = Some ri -> threads c !! j = Some rj ->
     inFlight ri = true -> inFlight rj = true -> i = j) /\
  (forall i ri,
     threads c !! i = Some ri -> inFlight ri = true ->
     held c = true /\ forall j, j <> i -> cstep j c = None) /\
  (forall w s, txs (traceOf (checkTrusted w s)) = [] /\
               txs (traceOf (onTimer w s)) = []).
Proof.
  intros Hrun.
  assert (Hinv : lockInvariant c).
  { eapply crun_invariant; [apply concurrentHandlers_invariant|exact Hrun]. }
  split; [|split].
  - intros i j ri rj Hi Hj Hfi Hfj.
    destruct (decide (i = j)) as [|Hne]; [assumption|exfalso].
    destruct Hinv as (owner & _ & Hthreads).
    pose proof (Hthreads i _ Hi) as Hme. pose proof (Hthreads j _ Hj) as Hyou.
    destruct (decide (owner = Some i)) as [->|].
    + rewrite decide_False in Hyou by congruence.
      apply idle_not_inFlight in Hyou. congruence.
    + apply idle_not_inFlight in Hme. congruence.
  - intros i ri Hi Hfi. exact (inFlight_is_owner c i ri Hinv Hi Hfi).
  - intros w s. split;
      [apply checkTrusted_submits_nothing|apply onTimer_submits_nothing].
Qed.

(** Two calls for two staking minipools: after the first has taken the mutex
    and submitted its logout, it alone has a transaction in flight and the
    second cannot take the mutex. *)
Lemma transactions_are_serialized_witness :
  let wA := sampleWorld (sampleMessage "exited" 5) 2 true (sampleAccount, None) None
                        (inr sampleMinipools) in
  let wB := sampleWorld {| Message := "validator_status"; Pubkey := "pubkeyB";
                           Status_Code := "withdrawable"; Balance := 5 |}
                        2 true (sampleAccount, None) None (inr sampleMinipools) in
  let calls := [ {| call_world := wA; call_data := []; call_sys := sampleSys |};
                 {| call_world := wB; call_data := []; call_sys := sampleSys |} ] in
  let schedule := [0; 0; 0; 0; 0; 0; 0]%nat in
  exists c ri,
    crun schedule (@concurrentHandlers sampleImports calls) = Some c /\
    threads c !! 0%nat = Some ri /\ inFlight ri = true /\
    held c = true /\ cstep 1 c = None.
Proof.
  intros wA wB calls schedule.
  eexists. eexists.
  split; [vm_compute; reflexivity|].
  split; [vm_compute; reflexivity|].
  split; [reflexivity|].
  match goal with
  | |- held ?c = true /\ _ =>
      pose proof (@transactions_are_serialized sampleImports calls schedule c
                    ltac:(vm_compute; reflexivity)) as (_ & Hlock & _)
  end.
  destruct (Hlock 0%nat _ ltac:(vm_compute; reflexivity) eq_refl) as (Hheld & Hstuck).
  split; [exact Hheld|apply Hstuck; discriminate].
Defined.

(** ** Further facts *)

(** A stand-down that finds no goroutine parked on the stop channel blocks at
    the send, with the flag already cleared and the subscription still in
    place.  This is the state a failed discovery cycle leaves behind. *)
Lemma stand_down_without_timer_blocks (s : Sys) :
  updatingMinipools (proc s) = true ->
  parked s = [] ->
  exitOf (stopUpdateMinipools s) = Blocked /\
  updatingMinipools (proc (sysOf (stopUpdateMinipools s))) = false /\
  List.filter (fun e => match e with EvRemoveSubscriber _ _ => true | _ => false end)
              (traceOf (stopUpdateMinipools s)) = [].
Proof.
  intros Hu Hp. rewrite (stopUpdateMinipools_updating s Hu), Hp. simpl. auto.
Qed.

(** Between any two steps of a run the mutex is free, as the hypotheses on
    the handler assume. *)
Lemma run_leaves_mutex_free `{Imports} (steps : list Step) (s : Sys) :
  txLock (proc s) = false -> txLock (proc (fst (run steps s))) = false.
Proof.
  revert s. induction steps as [|st rest IH]; intros s Hl; [exact Hl|].
  cbn [run].
  assert (Hstep : txLock (proc (sysOf (step st s))) = false).
  { destruct st as [w|w|w d]; cbn [step].
    - rewrite checkTrusted_unfold. cbn zeta.
      destruct (call_getTrusted w _) as [err|[|]].
      + unfold sysOf; simpl; exact Hl.
      + destruct (updatingMinipools (proc s)) eqn:Hu.
        * rewrite startUpdateMinipools_updating by assumption. unfold sysOf; simpl; exact Hl.
        * destruct (startUpdateMinipools_idle w s Hu) as (t & s1 & Ec & ->).
          destruct (checkMinipools_frame w (with_proc (set_updatingMinipools true) s))
            as (t' & s1' & Ec' & _ & _ & _ & Hlk & _).
          rewrite Ec in Ec'. injection Ec' as <- <-. unfold sysOf; simpl; rewrite Hlk; exact Hl.
      + destruct (updatingMinipools (proc s)) eqn:Hu.
        * rewrite (stopUpdateMinipools_updating s Hu).
          destruct (remove_first _ _); unfold sysOf; simpl; exact Hl.
        * rewrite (stopUpdateMinipools_idle s Hu). unfold sysOf; simpl; exact Hl.
    - unfold onTimer. destruct (parked s) as [|c rest']; [exact Hl|].
      destruct (checkMinipools_frame w
                  {| proc := proc s; nextChan := nextChan s; parked := rest' |})
        as (t' & s1' & -> & _ & _ & _ & Hlk & _).
      unfold sysOf; simpl; rewrite Hlk; exact Hl.
    - destruct d; try exact Hl. cbn [onChannelValue].
      rewrite (proj1 (onBeaconClientMessage_frame w m s)). exact Hl. }
  destruct (step st s) as [[r s1] t1]. unfold sysOf in Hstep. simpl in Hstep.
  specialize (IH s1 Hstep). destruct (run rest s1) as [s2 t2]. exact IH.
Qed.

(** * Further properties of the watchtower *)

(** ** The message handler *)

Lemma handle_unreadable `{Imports} (w : World) (data : Bytes) (s : Sys)
    (m : ServerMessage) (a : Address) :
  json_Unmarshal w data = inr m ->
  Message m = "validator_status" ->
  allowedCode (Status_Code m) = true ->
  activeMinipools (proc s) !! Pubkey m = Some a ->
  handleBeaconClientMessage w data s =
  match NewContract w a "rocketMinipool" with
  | Some err =>
      (Returned tt, s,
       [EvWaitSync; EvNewContract a "rocketMinipool";
        EvLog (LogError "" ("Error initialising minipool contract: " ++ err)%string)])
  | None =>
      match call_getStatus w a with
      | inl err =>
          (Returned tt, s,
           [EvWaitSync; EvNewContract a "rocketMinipool";
            EvCall (BoundAt a "rocketMinipool") "getStatus" [];
            EvLog (LogError "" ("Error retrieving minipool status: " ++ err)%string)])
      | inr _ => handleBeaconClientMessage w data s
      end
  end.
Proof.
  intros Hp Hm Hc Ha.
  destruct (NewContract w a "rocketMinipool") as [e|] eqn:Hn;
    [|destruct (call_getStatus w a) as [e|st] eqn:Hs; [|reflexivity]].
  - unfold handleBeaconClientMessage.
    rewrite Hp, Hm. unfold allowedCode in Hc. simpl. rewrite Hc. simpl.
    unfold bind at 1. unfold getProc at 1. simpl. rewrite Ha.
    unfold getMinipoolStatus. rewrite Hn. reflexivity.
  - unfold handleBeaconClientMessage.
    rewrite Hp, Hm. unfold allowedCode in Hc. simpl. rewrite Hc. simpl.
    unfold bind at 1. unfold getProc at 1. simpl. rewrite Ha.
    unfold getMinipoolStatus. rewrite Hn, Hs. reflexivity.
Qed.

(** Every exit path of the handler releases the mutex it took: called with
    the mutex free it returns, leaves the process as it found it (mutex free
    again), and takes and releases the mutex exactly once, first and last. *)
Theorem handler_releases_the_mutex `{Imports} (w : World) (data : Bytes) (s : Sys) :
  txLock (proc s) = false ->
  let r := onBeaconClientMessage w data s in
  exitOf r = Returned tt /\
  sysOf r = s /\
  List.filter isLockEvent (traceOf r) = [EvLock; EvUnlock] /\
  List.hd_error (traceOf r) = Some EvLock /\
  List.last (traceOf r) EvLock = EvUnlock.
Proof.
  intros Hl r. subst r. rewrite onBeaconClientMessage_free by assumption.
  unfold exitOf, sysOf, traceOf. cbn [fst snd].
  repeat split.
  - pose proof (handle_no_lock_events w data s) as Hn. unfold traceOf in Hn.
    cbn [List.filter isLockEvent]. rewrite List.filter_app, Hn. reflexivity.
  - change (EvLock :: snd (handleBeaconClientMessage w data s) ++ [EvUnlock])
      with ((EvLock :: snd (handleBeaconClientMessage w data s)) ++ [EvUnlock]).
    apply List.last_last.
Qed.

Lemma handler_releases_the_mutex_witness :
  let w := sampleWorld (sampleMessage "withdrawable" 5) 3 true (sampleAccount, None) None
                       (inr sampleMinipools) in
  sysOf (@onBeaconClientMessage sampleImports w [] sampleSys) = sampleSys /\
  List.filter isLockEvent (traceOf (@onBeaconClientMessage sampleImports w [] sampleSys))
    = [EvLock; EvUnlock].
Proof.
  intros w.
  destruct (@handler_releases_the_mutex sampleImports w [] sampleSys eq_refl)
    as (_ & Hs & Hl & _).
  split; [exact Hs|exact Hl].
Defined.

(** Whatever the message and whatever the collaborators answer, the handler
    submits at most one transaction, and only for the address that
    [activeMinipools] holds for the pubkey of the decoded message: a logout
    of that address, or a withdraw of it with the converted balance. *)
Theorem handler_submits_at_most_one_transaction `{Imports} (w : World) (data : Bytes)
    (s : Sys) :
  let t := traceOf (onBeaconClientMessage w data s) in
  txs t = [] \/
  exists m a,
    json_Unmarshal w data = inr m /\
    activeMinipools (proc s) !! Pubkey m = Some a /\
    (txs t = [logoutTx a] \/
     txs t = [withdrawTx a (GweiToWei (float64_of_int (Balance m)))]).
Proof.
  intros t. subst t.
  destruct (txLock (proc s)) eqn:Hl.
  { rewrite onBeaconClientMessage_held by assumption. left. reflexivity. }
  rewrite onBeaconClientMessage_free by assumption.
  unfold txs. cbn [traceOf snd List.filter isTx]. rewrite List.filter_app.
  cbn [List.filter isTx]. rewrite app_nil_r.
  destruct (json_Unmarshal w data) as [err|m] eqn:Hp.
  { left. unfold handleBeaconClientMessage. rewrite Hp. reflexivity. }
  destruct (Message m =? "validator_status")%string eqn:Em.
  2: { left. unfold handleBeaconClientMessage. rewrite Hp, Em. reflexivity. }
  apply String.eqb_eq in Em.
  destruct (allowedCode (Status_Code m)) eqn:Ec.
  2: { left. unfold handleBeaconClientMessage. rewrite Hp, Em.
       unfold allowedCode in Ec. simpl. rewrite Ec. reflexivity. }
  destruct (activeMinipools (proc s) !! Pubkey m) as [a|] eqn:Ha.
  2: { left. rewrite (handle_absent w data s m) by assumption. reflexivity. }
  destruct (NewContract w a "rocketMinipool") as [e|] eqn:Hn.
  { left. rewrite (handle_unreadable w data s m a), Hn by assumption. reflexivity. }
  destruct (call_getStatus w a) as [e|status] eqn:Hs.
  { left. rewrite (handle_unreadable w data s m a), Hn, Hs by assumption. reflexivity. }
  pose proof (handle_managed w data s m a status Hp Em Ec Ha Hn Hs) as Ht.
  first [rewrite Ht | unfold traceOf in Ht; rewrite Ht]. cbn [List.filter isTx app].
  unfold decisionTrace.
  destruct (status =? STAKING).
  - destruct (GetNodeAccountTransactor w); [left; reflexivity|].
    right. exists m, a. split; [reflexivity|]. split; [exact Ha|]. left.
    destruct (ExecuteContractTransaction w _ _ _); reflexivity.
  - destruct ((status =? LOGGED_OUT) && (Status_Code m =? "withdrawable")%string);
      [|left; reflexivity].
    destruct (GetNodeAccountTransactor w); [left; reflexivity|].
    right. exists m, a. split; [reflexivity|]. split; [exact Ha|]. right.
    cbn zeta. destruct (ExecuteContractTransaction w _ _ _); reflexivity.
Qed.

(** Messages the handler does not act on: one that does not decode is
    logged once and dropped; a decoded one with another tag than
    [validator_status], or with a status code other than exited and
    withdrawable, is dropped in silence, even for a managed pubkey.  Either
    way nothing is read from the chain and nothing is submitted. *)
Theorem unhandled_messages_are_dropped `{Imports} (w : World) (data : Bytes) (s : Sys) :
  txLock (proc s) = false ->
  (forall err,
     json_Unmarshal w data = inl err ->
     onBeaconClientMessage w data s =
     (Returned tt, s,
      [EvLock; EvLog (LogError "Error decoding beacon message: " err); EvUnlock])) /\
  (forall m,
     json_Unmarshal w data = inr m ->
     Message m <> "validator_status" \/ allowedCode (Status_Code m) = false ->
     onBeaconClientMessage w data s = (Returned tt, s, [EvLock; EvUnlock])).
Proof.
  intros Hl. rewrite onBeaconClientMessage_free by assumption. split.
  - intros err Hp. unfold handleBeaconClientMessage. rewrite Hp. reflexivity.
  - intros m Hp Hor. unfold handleBeaconClientMessage. rewrite Hp.
    destruct (Message m =? "validator_status")%string eqn:Em.
    + destruct Hor as [Hne|Hc]; [apply String.eqb_eq in Em; contradiction|].
      unfold allowedCode in Hc. cbn [negb]. rewrite Hc. reflexivity.
    + reflexivity.
Qed.

Lemma unhandled_messages_are_dropped_witness :
  let w := sampleWorld (sampleMessage "active" 5) 2 true (sampleAccount, None) None
                       (inr sampleMinipools) in
  activeMinipools (proc sampleSys) !! "pubkeyA" = Some 7 /\
  @onBeaconClientMessage sampleImports w [] sampleSys =
    (Returned tt, sampleSys, [EvLock; EvUnlock]).
Proof.
  intros w. split; [reflexivity|].
  apply (proj2 (@unhandled_messages_are_dropped sampleImports w [] sampleSys eq_refl)
           (sampleMessage "active" 5) eq_refl).
  right. reflexivity.
Defined.

(** A transaction is submitted exactly when the message decodes, is a
    [validator_status] report with an allowed code for a managed pubkey, the
    on-chain status is read, the node account transactor is obtained, and
    the status is staking, or it is logged-out and the code is
    withdrawable. *)
Theorem transaction_is_submitted_exactly_when `{Imports} (w : World) (data : Bytes)
    (s : Sys) :
  txLock (proc s) = false ->
  txs (traceOf (onBeaconClientMessage w data s)) <> [] <->
  exists m a status,
    json_Unmarshal w data = inr m /\
    Message m = "validator_status" /\
    allowedCode (Status_Code m) = true /\
    activeMinipools (proc s) !! Pubkey m = Some a /\
    NewContract w a "rocketMinipool" = None /\
    call_getStatus w a = inr status /\
    GetNodeAccountTransactor w = None /\
    (status = STAKING \/ (status = LOGGED_OUT /\ Status_Code m = "withdrawable")).
Proof.
  intros Hl. rewrite onBeaconClientMessage_free by assumption.
  unfold txs. cbn [traceOf snd List.filter isTx]. rewrite List.filter_app.
  cbn [List.filter isTx]. rewrite app_nil_r.
  split.
  - intros Hne.
    destruct (json_Unmarshal w data) as [err|m] eqn:Hp.
    { exfalso. apply Hne. unfold handleBeaconClientMessage. rewrite Hp. reflexivity. }
    destruct (Message m =? "validator_status")%string eqn:Em.
    2: { exfalso. apply Hne. unfold handleBeaconClientMessage. rewrite Hp, Em.
         reflexivity. }
    apply String.eqb_eq in Em.
    destruct (allowedCode (Status_Code m)) eqn:Ec.
    2: { exfalso. apply Hne. unfold handleBeaconClientMessage. rewrite Hp, Em.
         unfold allowedCode in Ec. simpl. rewrite Ec. reflexivity. }
    destruct (activeMinipools (proc s) !! Pubkey m) as [a|] eqn:Ha.
    2: { exfalso. apply Hne. rewrite (handle_absent w data s m) by assumption.
         reflexivity. }
    destruct (NewContract w a "rocketMinipool") as [e|] eqn:Hn.
    { exfalso. apply Hne.
      rewrite (handle_unreadable w data s m a), Hn by assumption. reflexivity. }
    destruct (call_getStatus w a) as [e|status] eqn:Hs.
    { exfalso. apply Hne.
      rewrite (handle_unreadable w data s m a), Hn, Hs by assumption. reflexivity. }
    rewrite (handle_managed w data s m a status) in Hne by assumption.
    cbn [List.filter isTx app] in Hne. unfold decisionTrace in Hne.
    exists m, a, status. repeat (split; [auto; fail|]).
    destruct (status =? STAKING) eqn:E1.
    + destruct (GetNodeAccountTransactor w); [exfalso; apply Hne; reflexivity|].
      split; [reflexivity|]. left. apply Z.eqb_eq. exact E1.
    + destruct (status =? LOGGED_OUT) eqn:E2;
        [|exfalso; apply Hne; reflexivity].
      destruct (Status_Code m =? "withdrawable")%string eqn:E3;
        [|exfalso; apply Hne; reflexivity].
      cbn [andb] in Hne.
      destruct (GetNodeAccountTransactor w); [exfalso; apply Hne; reflexivity|].
      split; [reflexivity|]. right.
      split; [apply Z.eqb_eq; exact E2|apply String.eqb_eq; exact E3].
  - intros (m & a & status & Hp & Em & Ec & Ha & Hn & Hs & Ht & Hor).
    rewrite (handle_managed w data s m a status) by assumption.
    cbn [List.filter isTx app]. unfold decisionTrace. rewrite Ht.
    destruct Hor as [->|[-> Hcode]].
    + rewrite Z.eqb_refl. cbn. discriminate.
    + destruct (LOGGED_OUT =? STAKING); [cbn; discriminate|].
      rewrite Z.eqb_refl, Hcode. cbn. discriminate.
Qed.

Lemma transaction_is_submitted_exactly_when_witness :
  let w := sampleWorld (sampleMessage "withdrawable" 5) 3 true (sampleAccount, None) None
                       (inr sampleMinipools) in
  txs (traceOf (@onBeaconClientMessage sampleImports w [] sampleSys)) <> [].
Proof.
  intros w.
  apply (@transaction_is_submitted_exactly_when sampleImports w [] sampleSys eq_refl).
  exists (sampleMessage "withdrawable" 5), 7, 3.
  repeat split; try reflexivity. right. split; reflexivity.
Defined.

(** When the on-chain status of a managed minipool cannot be read, because
    the contract cannot be bound or the call fails, the handler logs that
    error, with the prefix [getMinipoolStatus] gives it, and submits
    nothing. *)
Theorem unreadable_status_submits_nothing `{Imports} (w : World) (data : Bytes)
    (s : Sys) (m : ServerMessage) (a : Address) (err : GoError) :
  json_Unmarshal w data = inr m ->
  Message m = "validator_status" ->
  allowedCode (Status_Code m) = true ->
  activeMinipools (proc s) !! Pubkey m = Some a ->
  txLock (proc s) = false ->
  NewContract w a "rocketMinipool" = Some err \/
  (NewContract w a "rocketMinipool" = None /\ call_getStatus w a = inl err) ->
  let t := traceOf (onBeaconClientMessage w data s) in
  txs t = [] /\
  List.filter isErrorLog t =
    [EvLog (LogError ""
              ((match NewContract w a "rocketMinipool" with
                | Some _ => "Error initialising minipool contract: "
                | None => "Error retrieving minipool status: "
                end) ++ err)%string)].
Proof.
  intros Hp Hm Hc Ha Hl Hfail t. subst t.
  rewrite onBeaconClientMessage_free by assumption.
  rewrite (handle_unreadable w data s m a) by assumption.
  destruct Hfail as [Hn|[Hn Hs]].
  - rewrite Hn. split; reflexivity.
  - rewrite Hn, Hs. split; reflexivity.
Qed.

Lemma unreadable_status_submits_nothing_witness :
  let w := {| json_Unmarshal := fun _ => inr (sampleMessage "exited" 5);
              json_Marshal := fun _ => inr [];
              GetNodeAccount := (sampleAccount, None);
              GetNodeAccountTransactor := None;
              call_getTrusted := fun _ => inr true;
              call_getMinipoolCheckInterval := inr 30;
              NewContract := fun _ _ => None;
              call_getStatus := fun _ => inl "execution reverted";
              GetActiveMinipoolsByValidatorPubkey := inr sampleMinipools;
              Beacon_Send := fun _ => None;
              ExecuteContractTransaction := fun _ _ _ => None |} in
  txs (traceOf (@onBeaconClientMessage sampleImports w [] sampleSys)) = [] /\
  List.filter isErrorLog (traceOf (@onBeaconClientMessage sampleImports w [] sampleSys)) =
    [EvLog (LogError "" "Error retrieving minipool status: execution reverted")].
Proof.
  intros w.
  apply (@unreadable_status_submits_nothing sampleImports w [] sampleSys
           (sampleMessage "exited" 5) 7 "execution reverted");
    try reflexivity.
  right. split; reflexivity.
Defined.

(** ** The trust check, discovery and the timer *)

(** After a trust check the flag [updatingMinipools] is the trusted value
    that was read, and it is what it was when the read failed; this holds
    also when the stand-down blocks at its send. *)
Theorem trust_check_sets_flag_to_what_it_read (w : World) (s : Sys) :
  updatingMinipools (proc (sysOf (checkTrusted w s))) =
  match call_getTrusted w (Account_Address (fst (GetNodeAccount w))) with
  | inr trusted => trusted
  | inl _ => updatingMinipools (proc s)
  end.
Proof.
  rewrite checkTrusted_unfold. cbn zeta.
  destruct (call_getTrusted w _) as [err|[|]].
  - reflexivity.
  - destruct (startUpdateMinipools_sets_flag w s) as (t & s1 & -> & Hu). exact Hu.
  - destruct (updatingMinipools (proc s)) eqn:Hu.
    + rewrite (stopUpdateMinipools_updating s Hu).
      destruct (remove_first _ _); reflexivity.
    + rewrite (stopUpdateMinipools_idle s Hu). unfold sysOf. simpl. exact Hu.
Qed.

(** The re-arm timer is set exactly once per schedule, on the stop channel,
    and never to zero: to one minute when the interval setting cannot be
    read or reads zero, and to the setting, in seconds, when it reads a
    number of seconds from one up to the largest that a duration holds. *)
Theorem timer_interval_falls_back_to_one_minute (w : World) (s : Sys) :
  List.filter isArmTimer (traceOf (scheduleCheckMinipools w s)) =
    [EvArmTimer (nextCheckInterval w) (stopCheckMinipools (proc s))] /\
  parked (sysOf (scheduleCheckMinipools w s)) = stopCheckMinipools (proc s) :: parked s /\
  nextCheckInterval w <> 0 /\
  ((forall seconds, call_getMinipoolCheckInterval w = inr seconds -> seconds = 0) ->
   nextCheckInterval w = 60 * NANOS_PER_SECOND) /\
  (forall seconds,
     call_getMinipoolCheckInterval w = inr seconds ->
     1 <= seconds <= 9223372036 ->
     nextCheckInterval w = seconds * NANOS_PER_SECOND).
Proof.
  rewrite scheduleCheckMinipools_spec. split; [reflexivity|]. split; [reflexivity|].
  unfold nextCheckInterval, DEFAULT_CHECK_MINIPOOLS_INTERVAL, ParseDuration_seconds,
    MAX_DURATION, NANOS_PER_SECOND.
  split; [|split].
  - destruct (call_getMinipoolCheckInterval w) as [e|seconds]; [discriminate|].
    destruct (Z.abs seconds * 1000000000 <=? 2 ^ 63 - 1); [|discriminate].
    destruct (seconds * 1000000000 =? 0) eqn:E; [discriminate|].
    apply Z.eqb_neq in E. exact E.
  - intros Hzero.
    destruct (call_getMinipoolCheckInterval w) as [e|seconds]; [reflexivity|].
    rewrite (Hzero seconds eq_refl). reflexivity.
  - intros seconds -> Hrange.
    destruct (Z.abs seconds * 1000000000 <=? 2 ^ 63 - 1) eqn:Efit.
    + destruct (seconds * 1000000000 =? 0) eqn:E; [|reflexivity].
      apply Z.eqb_eq in E. lia.
    + apply Z.leb_gt in Efit. lia.
Qed.

(** A successful discovery cycle sends one status request for each discovered
    entry whose request encodes, carrying that entry's pubkey (the order of
    [map_to_list] stands for the unspecified order of the goroutines); a send
    that fails stops neither the other requests nor the re-arm, which happens
    exactly once. *)
Theorem discovery_requests_every_entry (w : World) (s : Sys)
    (discovered : gmap string Address) :
  GetActiveMinipoolsByValidatorPubkey w = inr discovered ->
  let t := traceOf (checkMinipools w s) in
  List.filter isStatusRequest t = statusRequestsFor w (map_to_list discovered) /\
  List.filter isArmTimer t =
    [EvArmTimer (nextCheckInterval w) (stopCheckMinipools (proc s))] /\
  ((forall pubkey, exists payload,
      json_Marshal w {| cMessage := "get_validator_status"; cPubkey := pubkey |}
      = inr payload) ->
   length (List.filter isStatusRequest t) = size discovered).
Proof.
  intros Hd t.
  assert (Hreq : forall l s0,
            List.filter isStatusRequest (traceOf (forEach l (requestValidatorStatus w) s0))
            = statusRequestsFor w l /\
            List.filter isArmTimer (traceOf (forEach l (requestValidatorStatus w) s0)) = []).
  { induction l as [|[pubkey a] l IH]; intros s0; [split; reflexivity|].
    destruct (requestValidatorStatus_spec w (pubkey, a) s0) as (t1 & E1 & _).
    destruct (forEach_requests_spec w l s0) as (t2 & E2 & _).
    specialize (IH s0). rewrite E2 in IH. unfold traceOf in IH. cbn [snd] in IH.
    destruct IH as (IH1 & IH2).
    cbn [forEach]. unfold bind. rewrite E1, E2. unfold traceOf. cbn [snd].
    rewrite !List.filter_app, IH1, IH2.
    unfold requestValidatorStatus, bind, Println, emit, ret in E1.
    unfold statusRequestsFor. cbn [flat_map fst].
    destruct (json_Marshal w _) as [e|payload].
    - injection E1 as <-. split; reflexivity.
    - destruct (Beacon_Send w payload); injection E1 as <-; split; reflexivity. }
  assert (Ht : List.filter isStatusRequest t = statusRequestsFor w (map_to_list discovered)
               /\ List.filter isArmTimer t =
                  [EvArmTimer (nextCheckInterval w) (stopCheckMinipools (proc s))]).
  { subst t.
    destruct (Hreq (map_to_list discovered) (with_proc (set_activeMinipools discovered) s))
      as (H1 & H2).
    destruct (forEach_requests_spec w (map_to_list discovered)
                (with_proc (set_activeMinipools discovered) s)) as (t2 & E2 & _).
    rewrite E2 in H1, H2. unfold traceOf in H1, H2. cbn [snd] in H1, H2.
    assert (Etrace : traceOf (checkMinipools w s) =
              [EvLog (LogText "Checking active minipools..."); EvWaitSync;
               EvGetActiveMinipools] ++ t2 ++
              [EvWaitSync;
               EvCall (Registered "rocketMinipoolSettings") "getMinipoolCheckInterval" [];
               EvLog (LogInterval (nextCheckInterval w));
               EvArmTimer (nextCheckInterval w) (stopCheckMinipools (proc s))]).
    { unfold checkMinipools. rewrite Hd.
      unfold bind at 1. unfold Println at 1, emit at 1.
      unfold bind at 1. unfold WaitSync at 1, emit at 1.
      unfold bind at 1. unfold emit at 1.
      unfold bind at 1. unfold modifyProc at 1.
      unfold bind at 1. unfold getProc at 1.
      unfold bind at 1. cbn [proc with_proc activeMinipools set_activeMinipools].
      rewrite E2, scheduleCheckMinipools_spec. reflexivity. }
    rewrite Etrace. split.
    - rewrite !List.filter_app, H1. simpl. apply app_nil_r.
    - rewrite !List.filter_app, H2. reflexivity. }
  destruct Ht as (Ht1 & Ht2). split; [exact Ht1|]. split; [exact Ht2|].
  intros Henc. rewrite Ht1, <- length_map_to_list.
  generalize (map_to_list discovered). intros l.
  induction l as [|[pubkey a] l IH]; [reflexivity|].
  unfold statusRequestsFor in *. cbn [flat_map fst].
  destruct (Henc pubkey) as (payload & ->). cbn [app length]. rewrite IH. reflexivity.
Qed.

Lemma discovery_requests_every_entry_witness :
  let w := sampleWorld (sampleMessage "exited" 5) 2 true (sampleAccount, None) None
                       (inr sampleMinipools) in
  length (List.filter isStatusRequest (traceOf (checkMinipools w sampleSys))) = 2%nat.
Proof.
  intros w.
  destruct (discovery_requests_every_entry w sampleSys sampleMinipools eq_refl)
    as (_ & _ & Hn).
  rewrite Hn; [reflexivity|]. intros pubkey. exists []. reflexivity.
Defined.

(** ** Runs of the process *)

Lemma remove_first_head (c : Chan) (l : list Chan) : remove_first c (c :: l) = Some l.
Proof. cbn [remove_first]. rewrite Nat.eqb_refl. reflexivity. Qed.

Lemma checkMinipools_result (w : World) (s : Sys) :
  exists t,
    checkMinipools w s =
    (Returned tt,
     match GetActiveMinipoolsByValidatorPubkey w with
     | inl _ => s
     | inr discovered =>
         parkedOn (stopCheckMinipools (proc s))
                  (with_proc (set_activeMinipools discovered) s)
     end, t).
Proof.
  destruct (GetActiveMinipoolsByValidatorPubkey w) as [err|discovered] eqn:E.
  - rewrite (checkMinipools_failed w s err E). eauto.
  - destruct (checkMinipools_succeeded w s discovered E) as (t & _ & ->). eauto.
Qed.

Lemma step_timersInvariant `{Imports} (st : Step) (s : Sys) :
  timersInvariant s -> timersInvariant (sysOf (step st s)).
Proof.
  intros Hinv. pose proof Hinv as (Hlen & Hall & Hidle & Hlock).
  assert (Hcheck : forall w s0,
            parked s0 = [] -> txLock (proc s0) = false ->
            updatingMinipools (proc s0) = true ->
            timersInvariant (sysOf (checkMinipools w s0))).
  { intros w s0 Hp Hl Hu. destruct (checkMinipools_result w s0) as (t & ->).
    unfold sysOf. cbn [fst snd].
    destruct (GetActiveMinipoolsByValidatorPubkey w) as [err|discovered];
      unfold timersInvariant; cbn; rewrite Hp, Hu;
      repeat split; auto; discriminate. }
  assert (Hstopped : forall s0,
            parked s0 = [] -> txLock (proc s0) = false ->
            updatingMinipools (proc s0) = false -> timersInvariant s0).
  { intros s0 Hp Hl Hu. unfold timersInvariant. rewrite Hp. repeat split; auto. }
  destruct st as [w|w|w d]; cbn [step].
  - rewrite checkTrusted_unfold. cbn zeta.
    destruct (call_getTrusted w _) as [err|[|]].
    + exact Hinv.
    + destruct (updatingMinipools (proc s)) eqn:Hu.
      * rewrite startUpdateMinipools_updating by assumption. exact Hinv.
      * destruct (startUpdateMinipools_idle w s Hu) as (t & s1 & Ec & ->).
        specialize (Hcheck w (with_proc (set_updatingMinipools true) s)
                           (Hidle eq_refl) Hlock eq_refl).
        rewrite Ec in Hcheck. exact Hcheck.
    + destruct (updatingMinipools (proc s)) eqn:Hu.
      * rewrite (stopUpdateMinipools_updating s Hu).
        destruct (parked s) as [|c [|c' rest]] eqn:Hp; cbn [length] in Hlen; [| |lia].
        -- cbn [remove_first]. apply Hstopped; [exact Hp|exact Hlock|reflexivity].
        -- inversion Hall as [|? ? Hc _]; subst c. rewrite remove_first_head.
           apply Hstopped; [reflexivity|exact Hlock|reflexivity].
      * rewrite (stopUpdateMinipools_idle s Hu). exact Hinv.
  - unfold onTimer. destruct (parked s) as [|c [|c' rest]] eqn:Hp; cbn [length] in Hlen; [| |lia].
    + exact Hinv.
    + apply Hcheck; [reflexivity|exact Hlock|].
      cbn [proc]. destruct (updatingMinipools (proc s)) eqn:Hu; [reflexivity|].
      specialize (Hidle eq_refl). discriminate.
  - assert (Hs : sysOf (onChannelValue w d s) = s).
    { destruct d; try reflexivity. cbn [onChannelValue].
      apply onBeaconClientMessage_frame. }
    rewrite Hs. exact Hinv.
Qed.

Lemma run_timersInvariant `{Imports} (steps : list Step) (s : Sys) :
  timersInvariant s -> timersInvariant (fst (run steps s)).
Proof.
  revert s. induction steps as [|st rest IH]; intros s Hinv; [exact Hinv|].
  cbn [run]. pose proof (step_timersInvariant st s Hinv) as Hstep.
  destruct (step st s) as [[r s1] t1]. unfold sysOf in Hstep. cbn [fst] in Hstep.
  specialize (IH s1 Hstep). destruct (run rest s1) as [s2 t2]. exact IH.
Qed.

Lemma StartWatchtowerProcess_timersInvariant (next : Chan) :
  timersInvariant (StartWatchtowerProcess next).
Proof. unfold timersInvariant. cbn. repeat split; auto. Qed.

(** Discovery cycles never overlap and never outlive a session: after any
    run of trust checks, timer firings and message deliveries from the
    initial process, at most one re-arm timer is pending, it waits on the
    stop channel, none is pending while the process is not updating, and the
    mutex is free. *)
Theorem at_most_one_timer_is_pending `{Imports} (next : Chan) (steps : list Step) :
  let s := fst (run steps (StartWatchtowerProcess next)) in
  (length (parked s) <= 1)%nat /\
  Forall (fun c => c = next) (parked s) /\
  (updatingMinipools (proc s) = false -> parked s = []) /\
  txLock (proc s) = false.
Proof.
  intros s.
  pose proof (run_timersInvariant steps _ (StartWatchtowerProcess_timersInvariant next))
    as (H1 & H2 & H3 & H4).
  pose proof (run_keeps_channels steps (StartWatchtowerProcess next)) as (Hc & _).
  fold s in H1, H2, H3, H4, Hc. cbn [StartWatchtowerProcess proc stopCheckMinipools] in Hc.
  rewrite Hc in H2. auto.
Qed.

Lemma run_idle_without_trust_check `{Imports} (steps : list Step) (s : Sys) :
  parked s = [] ->
  forallb (fun st => negb (isTrustTick st)) steps = true ->
  fst (run steps s) = s /\ List.filter isDiscovery (snd (run steps s)) = [].
Proof.
  intros Hp. induction steps as [|st rest IH]; intros Hsteps; [split; reflexivity|].
  cbn [forallb] in Hsteps. apply andb_prop in Hsteps as [Hst Hrest].
  assert (Hstep : sysOf (step st s) = s /\ List.filter isDiscovery (traceOf (step st s)) = []).
  { destruct st as [w|w|w d]; cbn [step]; [discriminate| |].
    - unfold onTimer. rewrite Hp. auto.
    - destruct d; try (unfold sysOf, traceOf; simpl; auto; fail).
      cbn [onChannelValue].
      destruct (onBeaconClientMessage_frame w m s) as (Hs & _). split; [exact Hs|].
      destruct (txLock (proc s)) eqn:Hl.
      + rewrite onBeaconClientMessage_held by assumption. reflexivity.
      + rewrite onBeaconClientMessage_free by assumption.
        cbn [traceOf snd List.filter isDiscovery]. rewrite List.filter_app.
        rewrite (filter_nil_of_Forall isHandlerEvent); [reflexivity| |apply handle_events].
        intros [] He; try discriminate; reflexivity. }
  destruct Hstep as (Hs & Ht). cbn [run].
  destruct (step st s) as [[r s1] t1]. unfold sysOf, traceOf in Hs, Ht. simpl in Hs, Ht.
  subst s1. destruct (IH Hrest) as (IH1 & IH2).
  destruct (run rest s) as [s2 t2]. cbn [fst snd] in *.
  split; [exact IH1|]. rewrite List.filter_app, Ht, IH2. reflexivity.
Qed.

(** No stale discovery after stand-down: once a run has left the process not
    updating, timer firings and message deliveries, in any number and
    order, perform no discovery and change nothing; only a trust check can
    start discovery again. *)
Theorem no_discovery_while_not_updating `{Imports} (next : Chan)
    (steps later : list Step) :
  let s := fst (run steps (StartWatchtowerProcess next)) in
  updatingMinipools (proc s) = false ->
  forallb (fun st => negb (isTrustTick st)) later = true ->
  fst (run later s) = s /\ List.filter isDiscovery (snd (run later s)) = [].
Proof.
  intros s Hu Hlater.
  pose proof (run_timersInvariant steps _ (StartWatchtowerProcess_timersInvariant next))
    as (_ & _ & Hidle & _).
  fold s in Hidle. apply run_idle_without_trust_check; auto.
Qed.

Lemma no_discovery_while_not_updating_witness :
  let trusted := sampleWorld (sampleMessage "exited" 5) 2 true (sampleAccount, None) None
                             (inr sampleMinipools) in
  let untrusted := sampleWorld (sampleMessage "exited" 5) 2 false (sampleAccount, None)
                               None (inr sampleMinipools) in
  List.filter isDiscovery
    (snd (@run sampleImports [TimerFires trusted; Delivery trusted (DynClientEvent 0%nat [])]
            (fst (@run sampleImports [TrustTick trusted; TrustTick untrusted]
                    (StartWatchtowerProcess 0%nat))))) = [].
Proof.
  intros trusted untrusted.
  apply (@no_discovery_while_not_updating sampleImports 0%nat
           [TrustTick trusted; TrustTick untrusted]
           [TimerFires trusted; Delivery trusted (DynClientEvent 0%nat [])]);
    reflexivity.
Defined.

(** ** Sessions *)

Lemma stood_down_again (p : WatchtowerProcess) (discovered : gmap string Address) :
  updatingMinipools p = false ->
  set_updatingMinipools false (set_activeMinipools discovered (set_updatingMinipools true p))
  = set_activeMinipools discovered p.
Proof. destruct p; cbn; intros ->; reflexivity. Qed.

(** A session that starts with a successful discovery and is then stood down
    leaves the process as it was but for the active set, which stays the
    discovered one: the flag is clear again, the timer the session armed is
    the one the stand-down cancels, and the channel it subscribed is the one
    it unsubscribes, each exactly once. *)
Theorem session_start_then_stand_down (w : World) (s : Sys)
    (discovered : gmap string Address) :
  updatingMinipools (proc s) = false ->
  GetActiveMinipoolsByValidatorPubkey w = inr discovered ->
  let r := (startUpdateMinipools w >> stopUpdateMinipools) s in
  exitOf r = Returned tt /\
  sysOf r = with_proc (set_activeMinipools discovered) s /\
  List.filter isSubscribe (traceOf r) =
    [EvAddSubscriber "beacon.client.message" (beaconMessageChannel (proc s))] /\
  List.filter isUnsubscribe (traceOf r) =
    [EvRemoveSubscriber "beacon.client.message" (beaconMessageChannel (proc s))] /\
  List.filter isArmTimer (traceOf r) =
    [EvArmTimer (nextCheckInterval w) (stopCheckMinipools (proc s))] /\
  List.filter (isSendOn (stopCheckMinipools (proc s))) (traceOf r) =
    [EvChanSend (stopCheckMinipools (proc s))].
Proof.
  intros Hu Hd r. subst r.
  destruct (startUpdateMinipools_idle w s Hu) as (t & s1 & Ec & Es).
  destruct (checkMinipools_succeeded w (with_proc (set_updatingMinipools true) s)
              discovered Hd) as (requests & Freq & Ec').
  rewrite Ec in Ec'. injection Ec' as -> ->.
  unfold bind. rewrite Es.
  rewrite stopUpdateMinipools_updating by reflexivity.
  cbn [parked parkedOn proc with_proc stopCheckMinipools set_activeMinipools
       set_updatingMinipools].
  rewrite remove_first_head.
  unfold exitOf, sysOf, traceOf. cbn [fst snd].
  assert (Hreq : forall f, (forall e, isRequestEvent e = true -> f e = false) ->
                           List.filter f requests = []).
  { intros f Hf. apply (filter_nil_of_Forall isRequestEvent); assumption. }
  split; [reflexivity|]. split.
  { unfold with_proc. cbn [proc nextChan beaconMessageChannel].
    rewrite stood_down_again by assumption. reflexivity. }
  cbn [beaconMessageChannel nextChan updatingMinipools activeMinipools txLock].
  repeat split.
  - cbn [List.filter isSubscribe app]. rewrite !List.filter_app, Hreq.
    + reflexivity.
    + intros [] He; try discriminate; reflexivity.
  - cbn [List.filter isUnsubscribe app]. rewrite !List.filter_app, Hreq.
    + reflexivity.
    + intros [] He; try discriminate; reflexivity.
  - cbn [List.filter isArmTimer app]. rewrite !List.filter_app, Hreq.
    + reflexivity.
    + intros [] He; try discriminate; reflexivity.
  - cbn [List.filter isSendOn app]. rewrite !List.filter_app, Hreq.
    + cbn [List.filter isSendOn app]. rewrite Nat.eqb_refl. reflexivity.
    + intros [] He; try discriminate; reflexivity.
Qed.

Lemma session_start_then_stand_down_witness :
  let w := sampleWorld (sampleMessage "exited" 5) 2 true (sampleAccount, None) None
                       (inr sampleMinipools) in
  let s := StartWatchtowerProcess 0%nat in
  sysOf ((startUpdateMinipools w >> stopUpdateMinipools) s) =
    with_proc (set_activeMinipools sampleMinipools) s.
Proof.
  intros w s.
  destruct (session_start_then_stand_down w s sampleMinipools eq_refl eq_refl)
    as (_ & Hs & _).
  exact Hs.
Defined.

(** A session whose first discovery fails cannot be stood down: from any
    state a run reaches with the process not updating, start-supervision with
    a failing query followed by stand-down blocks at the send on the stop
    channel, because no timer was armed to receive it; the flag is clear,
    but the subscription made at the start is never removed. *)
Theorem stand_down_blocks_after_failed_first_discovery `{Imports} (next : Chan)
    (steps : list Step) (w : World) (err : GoError) :
  let s := fst (run steps (StartWatchtowerProcess next)) in
  updatingMinipools (proc s) = false ->
  GetActiveMinipoolsByValidatorPubkey w = inl err ->
  let r := (startUpdateMinipools w >> stopUpdateMinipools) s in
  exitOf r = Blocked /\
  updatingMinipools (proc (sysOf r)) = false /\
  List.filter isSubscribe (traceOf r) =
    [EvAddSubscriber "beacon.client.message" (S next)] /\
  List.filter isUnsubscribe (traceOf r) = [] /\
  List.filter (isSendOn next) (traceOf r) = [EvChanSend next].
Proof.
  intros s Hu He r. subst r.
  pose proof (run_timersInvariant steps _ (StartWatchtowerProcess_timersInvariant next))
    as (_ & _ & Hidle & _).
  pose proof (run_keeps_channels steps (StartWatchtowerProcess next)) as (Hc & Hb & _).
  fold s in Hidle, Hc, Hb.
  cbn [StartWatchtowerProcess proc stopCheckMinipools beaconMessageChannel] in Hc, Hb.
  specialize (Hidle Hu).
  destruct (startUpdateMinipools_idle w s Hu) as (t & s1 & Ec & Es).
  rewrite (checkMinipools_failed w _ err He) in Ec. injection Ec as <- <-.
  unfold bind. rewrite Es.
  rewrite stopUpdateMinipools_updating by reflexivity.
  cbn [parked with_proc]. rewrite Hidle. cbn [remove_first].
  unfold exitOf, sysOf, traceOf. cbn [fst snd proc with_proc stopCheckMinipools
    set_updatingMinipools updatingMinipools].
  rewrite Hc, Hb. cbn. rewrite Nat.eqb_refl. auto 10.
Qed.

Lemma stand_down_blocks_after_failed_first_discovery_witness :
  let w := sampleWorld (sampleMessage "exited" 5) 2 true (sampleAccount, None) None
                       (inl "connection refused") in
  exitOf ((startUpdateMinipools w >> stopUpdateMinipools) (StartWatchtowerProcess 0%nat))
  = Blocked.
Proof.
  intros w.
  destruct (@stand_down_blocks_after_failed_first_discovery sampleImports 0%nat [] w
              "connection refused" eq_refl eq_refl) as (Hb & _).
  exact Hb.
Defined.

Lemma handle_trace_depends_on_active_set `{Imports} (w : World) (data : Bytes)
    (s s' : Sys) :
  activeMinipools (proc s) = activeMinipools (proc s') ->
  traceOf (handleBeaconClientMessage w data s) =
  traceOf (handleBeaconClientMessage w data s').
Proof.
  intros Heq.
  destruct (json_Unmarshal w data) as [err|m] eqn:Hp.
  { unfold handleBeaconClientMessage. rewrite Hp. reflexivity. }
  destruct (Message m =? "validator_status")%string eqn:Em.
  2: { unfold handleBeaconClientMessage. rewrite Hp, Em. reflexivity. }
  apply String.eqb_eq in Em.
  destruct (allowedCode (Status_Code m)) eqn:Ec.
  2: { unfold handleBeaconClientMessage. rewrite Hp, Em.
       unfold allowedCode in Ec. simpl. rewrite Ec. reflexivity. }
  destruct (activeMinipools (proc s') !! Pubkey m) as [a|] eqn:Ha.
  2: { rewrite (handle_absent w data s m), (handle_absent w data s' m);
         try assumption; [reflexivity|congruence]. }
  assert (Ha' : activeMinipools (proc s) !! Pubkey m = Some a) by congruence.
  destruct (NewContract w a "rocketMinipool") as [e|] eqn:Hn.
  { rewrite (handle_unreadable w data s m a), (handle_unreadable w data s' m a), Hn
      by assumption. reflexivity. }
  destruct (call_getStatus w a) as [e|status] eqn:Hs.
  { rewrite (handle_unreadable w data s m a), (handle_unreadable w data s' m a), Hn, Hs
      by assumption. reflexivity. }
  rewrite (handle_managed w data s m a status), (handle_managed w data s' m a status)
    by assumption.
  reflexivity.
Qed.

(** Stand-down does not clear the active set, and the handler never looks at
    the flag: a message that arrives after a stand-down is handled exactly
    as it would have been before it, transactions included. *)
Theorem handler_acts_the_same_after_stand_down `{Imports} (w : World) (data : Bytes)
    (s : Sys) :
  txLock (proc s) = false ->
  let stopped := sysOf (stopUpdateMinipools s) in
  activeMinipools (proc stopped) = activeMinipools (proc s) /\
  traceOf (onBeaconClientMessage w data stopped) =
  traceOf (onBeaconClientMessage w data s).
Proof.
  intros Hl stopped.
  assert (Hs : activeMinipools (proc stopped) = activeMinipools (proc s) /\
               txLock (proc stopped) = false).
  { subst stopped. destruct (updatingMinipools (proc s)) eqn:Hu.
    - rewrite (stopUpdateMinipools_updating s Hu).
      destruct (remove_first _ _); split; try reflexivity; exact Hl.
    - rewrite (stopUpdateMinipools_idle s Hu). split; [reflexivity|exact Hl]. }
  destruct Hs as (Ha & Hl'). clearbody stopped. split; [exact Ha|].
  rewrite !onBeaconClientMessage_free by assumption.
  cbn [traceOf snd].
  rewrite (handle_trace_depends_on_active_set w data stopped s Ha). reflexivity.
Qed.

Lemma handler_acts_the_same_after_stand_down_witness :
  let w := sampleWorld (sampleMessage "exited" 5) 2 true (sampleAccount, None) None
                       (inr sampleMinipools) in
  updatingMinipools (proc (sysOf (stopUpdateMinipools sampleSys))) = false /\
  txs (traceOf (@onBeaconClientMessage sampleImports w []
                  (sysOf (stopUpdateMinipools sampleSys)))) = [logoutTx 7].
Proof.
  intros w. split; [reflexivity|].
  destruct (@handler_acts_the_same_after_stand_down sampleImports w [] sampleSys eq_refl)
    as (_ & Ht).
  rewrite Ht. reflexivity.
Defined.

(** * Properties of package bls *)

Section BlsBytes.

Import bls.

Lemma skipn_repeat {A} (x : A) (n k : nat) : skipn n (repeat x k) = repeat x (k - n).
Proof.
  revert n. induction k as [|k IH]; intros [|n]; try reflexivity.
  cbn [repeat skipn]. rewrite IH. reflexivity.
Qed.

(** Copying into a zeroed buffer truncates the source to the buffer and pads
    it with zeros. *)
Lemma copy_into_zeros (k : nat) (src : Bytes) :
  copy (repeat Byte.x00 k) src = firstn k src ++ repeat Byte.x00 (k - length src).
Proof.
  unfold copy. rewrite repeat_length, skipn_repeat.
  destruct (Nat.le_gt_cases k (length src)) as [Hle|Hgt].
  - rewrite Nat.min_l by assumption.
    replace (k - k)%nat with (k - length src)%nat by lia. reflexivity.
  - rewrite Nat.min_r by lia. rewrite (firstn_all2 (n := k)) by lia.
    rewrite firstn_all. reflexivity.
Qed.

Lemma Z_of_byte_of_Z (v : Z) : Z_of_byte (byte_of_Z v) = v mod 256.
Proof.
  unfold Z_of_byte, byte_of_Z.
  assert (Hr : 0 <= v mod 256 < 256) by (apply Z.mod_pos_bound; lia).
  destruct (Byte.of_N (Z.to_N (v mod 256))) as [b|] eqn:E.
  - apply Byte.to_of_N in E. rewrite E. apply Z2N.id. lia.
  - apply Byte.of_N_None_iff in E. lia.
Qed.

Lemma uint64_le_length (v : Z) : length (uint64_le v) = 8%nat.
Proof. reflexivity. Qed.

(** The eight bytes spell the number they were written for. *)
Lemma le_value_uint64_le (v : Z) : 0 <= v < 2 ^ 64 -> le_value (uint64_le v) = v.
Proof.
  intros Hv. unfold uint64_le. cbn [seq List.map le_value].
  rewrite !Z_of_byte_of_Z, !Z.shiftr_div_pow2 by lia.
  change (8 * Z.of_nat 0) with 0. change (8 * Z.of_nat 1) with 8.
  change (8 * Z.of_nat 2) with 16. change (8 * Z.of_nat 3) with 24.
  change (8 * Z.of_nat 4) with 32. change (8 * Z.of_nat 5) with 40.
  change (8 * Z.of_nat 6) with 48. change (8 * Z.of_nat 7) with 56.
  change (2 ^ 0) with 1. change (2 ^ 8) with 256. change (2 ^ 16) with 65536.
  change (2 ^ 24) with 16777216. change (2 ^ 32) with 4294967296.
  change (2 ^ 40) with 1099511627776. change (2 ^ 48) with 281474976710656.
  change (2 ^ 56) with 72057594037927936.
  change (2 ^ 64) with 18446744073709551616 in Hv.
  Z.div_mod_to_equations. lia.
Qed.

Lemma concatMsgAndDomain_eq (msg : Bytes) (domain : Z) :
  concatMsgAndDomain msg domain =
  firstn 32 msg ++ repeat Byte.x00 (32 - length msg) ++ uint64_le domain.
Proof.
  change (concatMsgAndDomain msg domain)
    with (copy (repeat Byte.x00 32) msg ++ uint64_le domain).
  rewrite copy_into_zeros, <- app_assoc. reflexivity.
Qed.

Lemma slice4_array4 (l : Bytes) : length l = 4%nat -> slice4 (array4 l) = l.
Proof.
  destruct l as [|a [|b [|c [|d [|e l]]]]]; try discriminate. reflexivity.
Qed.

Lemma array4_slice4 (a : Bytes4) : array4 (slice4 a) = a.
Proof. destruct a; reflexivity. Qed.

Lemma ComputeDomain_eq (domainType : Bytes4) (forkVersion : option Bytes) :
  let v := match forkVersion with None => [] | Some v => v end in
  ComputeDomain domainType forkVersion =
  slice4 domainType ++ firstn 4 v ++ repeat Byte.x00 (4 - length v).
Proof.
  assert (Hsome : forall v,
            ComputeDomain domainType (Some v) =
            slice4 domainType ++ firstn 4 v ++ repeat Byte.x00 (4 - length v)).
  { intros v. unfold ComputeDomain, Domain.
    change (slice4 zero4) with (repeat Byte.x00 4).
    rewrite copy_into_zeros. cbv zeta. cbn [app].
    rewrite (firstn_all2 (slice4 domainType)) by (cbn; lia).
    rewrite (firstn_all2 (slice4 (array4 _))) by (cbn; lia).
    rewrite slice4_array4; [reflexivity|].
    rewrite length_app, length_firstn, repeat_length. lia. }
  destruct forkVersion as [v|]; [apply Hsome|].
  cbv zeta. rewrite <- (Hsome []). reflexivity.
Qed.

End BlsBytes.

Section BlsByteTheorems.

Import bls.

(** [concatMsgAndDomain] always yields 40 bytes: the message cut to 32 bytes
    and padded with zeros to 32, then the domain in eight bytes.  So bytes
    of the message beyond the 32nd are ignored, and a message shorter than
    32 bytes gives the same result as that message padded with zeros. *)
Theorem concatMsgAndDomain_layout (msg : Bytes) (domain : Z) :
  length (concatMsgAndDomain msg domain) = 40%nat /\
  concatMsgAndDomain msg domain =
    firstn 32 msg ++ repeat Byte.x00 (32 - length msg) ++ uint64_le domain /\
  concatMsgAndDomain (firstn 32 msg) domain = concatMsgAndDomain msg domain /\
  concatMsgAndDomain (msg ++ repeat Byte.x00 (32 - length msg)) domain =
    concatMsgAndDomain msg domain.
Proof.
  rewrite !concatMsgAndDomain_eq. split; [|split; [reflexivity|split]].
  - rewrite !length_app, length_firstn, repeat_length, uint64_le_length. lia.
  - rewrite firstn_firstn, length_firstn, Nat.min_id. do 3 f_equal. lia.
  - rewrite length_app, repeat_length.
    destruct (Nat.le_gt_cases (length msg) 32).
    + replace (32 - (length msg + (32 - length msg)))%nat with 0%nat by lia.
      rewrite firstn_app, (firstn_all2 msg) by lia.
      rewrite firstn_all2 by (rewrite repeat_length; lia).
      cbn [repeat]. rewrite <- !app_assoc. reflexivity.
    + replace (32 - length msg)%nat with 0%nat by lia. cbn [repeat].
      rewrite app_nil_r. replace (32 - (length msg + 0))%nat with 0%nat by lia.
      reflexivity.
Qed.

(** For a message of exactly 32 bytes and a domain that is a [uint64],
    nothing is lost: the first 32 bytes of the result are the message, the
    last eight spell the domain least significant byte first, and two
    results are equal only for the same message and the same domain. *)
Theorem concatMsgAndDomain_round_trip (msg msg' : Bytes) (domain domain' : Z) :
  length msg = 32%nat -> length msg' = 32%nat ->
  0 <= domain < 2 ^ 64 -> 0 <= domain' < 2 ^ 64 ->
  firstn 32 (concatMsgAndDomain msg domain) = msg /\
  le_value (skipn 32 (concatMsgAndDomain msg domain)) = domain /\
  (concatMsgAndDomain msg domain = concatMsgAndDomain msg' domain' ->
   msg = msg' /\ domain = domain').
Proof.
  intros Hm Hm' Hd Hd'.
  assert (Heq : forall m d, length m = 32%nat ->
                            concatMsgAndDomain m d = m ++ uint64_le d).
  { intros m d Hl. rewrite concatMsgAndDomain_eq, Hl.
    rewrite firstn_all2 by lia. reflexivity. }
  rewrite !Heq by assumption. split; [|split].
  - rewrite firstn_app, Hm. change (32 - 32)%nat with 0%nat.
    rewrite firstn_all2 by lia. cbn [firstn]. apply app_nil_r.
  - rewrite skipn_app, Hm. change (32 - 32)%nat with 0%nat.
    rewrite skipn_all2 by lia. cbn [skipn app]. apply le_value_uint64_le. exact Hd.
  - intros Happ. apply app_inj_1 in Happ; [|congruence].
    destruct Happ as (-> & Hle). split; [reflexivity|].
    rewrite <- (le_value_uint64_le domain), <- (le_value_uint64_le domain') by assumption.
    rewrite Hle. reflexivity.
Qed.

Lemma concatMsgAndDomain_round_trip_witness :
  let msg := repeat Byte.x2a 32 in
  le_value (skipn 32 (concatMsgAndDomain msg 258)) = 258 /\
  firstn 32 (concatMsgAndDomain msg 258) = msg.
Proof.
  intros msg.
  destruct (concatMsgAndDomain_round_trip msg msg 258 258 eq_refl eq_refl) as (H1 & H2 & _);
    [split; [discriminate|reflexivity]|split; [discriminate|reflexivity]|].
  split; [exact H2|exact H1].
Defined.

(** [Domain] is the four bytes of the domain type followed by the four of
    the fork version: eight bytes from which both arrays are read back, so
    two domains are equal only for equal arguments. *)
Theorem Domain_round_trip (domainType forkVersion domainType' forkVersion' : Bytes4) :
  Domain domainType forkVersion = slice4 domainType ++ slice4 forkVersion /\
  length (Domain domainType forkVersion) = 8%nat /\
  array4 (firstn 4 (Domain domainType forkVersion)) = domainType /\
  array4 (skipn 4 (Domain domainType forkVersion)) = forkVersion /\
  (Domain domainType forkVersion = Domain domainType' forkVersion' ->
   domainType = domainType' /\ forkVersion = forkVersion').
Proof.
  assert (Hd : forall a b, array4 (firstn 4 (Domain a b)) = a /\
                           array4 (skipn 4 (Domain a b)) = b).
  { intros [] []. split; reflexivity. }
  split; [reflexivity|]. split; [reflexivity|].
  split; [apply Hd|]. split; [apply Hd|].
  intros Heq. split.
  - rewrite <- (proj1 (Hd domainType forkVersion)), Heq. apply Hd.
  - rewrite <- (proj2 (Hd domainType forkVersion)), Heq. apply Hd.
Qed.

(** [ComputeDomain] never fails and always yields eight bytes: the domain
    type, then the fork version cut to four bytes and padded with zeros to
    four.  A nil fork version, an empty one and four zero bytes all give the
    genesis domain; bytes of the fork version beyond the fourth are ignored;
    and for a fork version of exactly four bytes it is [Domain] of them. *)
Theorem ComputeDomain_pads_and_truncates (domainType : Bytes4) (forkVersion : Bytes) :
  ComputeDomain domainType (Some forkVersion) =
    slice4 domainType ++ firstn 4 forkVersion
      ++ repeat Byte.x00 (4 - length forkVersion) /\
  length (ComputeDomain domainType (Some forkVersion)) = 8%nat /\
  ComputeDomain domainType None = Domain domainType zero4 /\
  ComputeDomain domainType (Some []) = ComputeDomain domainType None /\
  ComputeDomain domainType (Some (firstn 4 forkVersion)) =
    ComputeDomain domainType (Some forkVersion) /\
  (length forkVersion = 4%nat ->
   ComputeDomain domainType (Some forkVersion) = Domain domainType (array4 forkVersion)).
Proof.
  pose proof (ComputeDomain_eq domainType (Some forkVersion)) as E.
  cbv beta iota zeta in E.
  split; [exact E|]. split; [|split; [|split; [|split]]].
  - rewrite E, !length_app, length_firstn, repeat_length. cbn [slice4 length]. lia.
  - reflexivity.
  - reflexivity.
  - pose proof (ComputeDomain_eq domainType (Some (firstn 4 forkVersion))) as E'.
    cbv beta iota zeta in E'. rewrite E, E', firstn_firstn, length_firstn, Nat.min_id.
    do 3 f_equal. lia.
  - intros Hl. rewrite E, Hl. rewrite firstn_all2 by lia. cbn [repeat Nat.sub].
    rewrite app_nil_r. unfold Domain. cbn [app firstn slice4].
    rewrite <- (slice4_array4 forkVersion Hl) at 1. reflexivity.
Qed.

End BlsByteTheorems.

Section BlsKeys.

Import bls.
Context `{Bls12}.

Lemma Wrap_is_not_length_error (err : GoError) (what : string) :
  Wrap err ("could not unmarshal bytes into " ++ what)%string
  <> ("secret key must be 32 bytes")%string.
Proof. unfold Wrap. cbn. discriminate. Qed.

(** A marshalled secret key is the library's serialisation, padded on the
    left with zeros to 32 bytes when it is shorter: it is never shorter than
    32 bytes, and [SecretKeyFromBytes] rejects it for its length exactly
    when the serialisation is longer than 32 bytes. *)
Theorem SecretKey_Marshal_pads_to_32 (s : SecretKeyVal) :
  SecretKey_Marshal s =
    repeat Byte.x00 (32 - length (sk_Serialize s)) ++ sk_Serialize s /\
  length (SecretKey_Marshal s) = Nat.max 32 (length (sk_Serialize s)) /\
  (SecretKeyFromBytes (SecretKey_Marshal s) = inl "secret key must be 32 bytes"
   <-> (32 < length (sk_Serialize s))%nat).
Proof.
  assert (E : SecretKey_Marshal s =
              repeat Byte.x00 (32 - length (sk_Serialize s)) ++ sk_Serialize s).
  { unfold SecretKey_Marshal, BLSSecretKeyLength. cbv zeta.
    destruct (length (sk_Serialize s) <? 32)%nat eqn:Hlt; [reflexivity|].
    apply Nat.ltb_ge in Hlt.
    replace (32 - length (sk_Serialize s))%nat with 0%nat by lia. reflexivity. }
  assert (L : length (SecretKey_Marshal s) = Nat.max 32 (length (sk_Serialize s))).
  { rewrite E, length_app, repeat_length. lia. }
  split; [exact E|]. split; [exact L|].
  unfold SecretKeyFromBytes, BLSSecretKeyLength. rewrite L.
  destruct (Nat.eqb (Nat.max 32 (length (sk_Serialize s))) 32) eqn:Heq; cbn [negb].
  - apply Nat.eqb_eq in Heq. split; [|lia].
    destruct (sk_Deserialize (SecretKey_Marshal s)) as [err|k]; [|discriminate].
    intros Hbad.
    apply (f_equal (fun r : GoError + SecretKeyVal =>
                      match r with inl e => e | inr _ => EmptyString end)) in Hbad.
    cbv beta iota in Hbad.
    exfalso. exact (Wrap_is_not_length_error err "secret key" Hbad).
  - apply Nat.eqb_neq in Heq. split; [lia|reflexivity].
Qed.

(** The three decoders succeed only on input of exactly 32, 48 and 96 bytes;
    input of any other length is refused with the length error before the
    cache or the library is consulted, and the memory is left untouched. *)
Theorem decoders_check_the_length (admitted : bool) (b : Bytes) (m : Mem) :
  (length b <> 32%nat -> SecretKeyFromBytes b = inl "secret key must be 32 bytes") /\
  (length b <> 48%nat ->
   PublicKeyFromBytes admitted b m = Some (inl "public key must be 48 bytes", m)) /\
  (length b <> 96%nat -> SignatureFromBytes b m = (inl "signature must be 96 bytes", m)) /\
  (forall k, SecretKeyFromBytes b = inr k ->
             length b = 32%nat /\ sk_Deserialize b = inr k) /\
  (forall p m', PublicKeyFromBytes admitted b m = Some (inr p, m') -> length b = 48%nat) /\
  (forall s m', SignatureFromBytes b m = (inr s, m') ->
                length b = 96%nat /\
                exists v, sign_Deserialize b = inr v /\ signs m' !! s = Some v).
Proof.
  unfold SecretKeyFromBytes, PublicKeyFromBytes, SignatureFromBytes,
    BLSSecretKeyLength, BLSPubkeyLength, BLSSignatureLength.
  repeat split.
  - intros Hl. apply Nat.eqb_neq in Hl. rewrite Hl. reflexivity.
  - intros Hl. apply Nat.eqb_neq in Hl. rewrite Hl. reflexivity.
  - intros Hl. apply Nat.eqb_neq in Hl. rewrite Hl. reflexivity.
  - destruct (Nat.eqb (length b) 32) eqn:E; [apply Nat.eqb_eq in E; exact E|discriminate].
  - destruct (Nat.eqb (length b) 32) eqn:E; [|discriminate]. cbn [negb] in *.
    destruct (sk_Deserialize b); congruence.
  - intros p m'. destruct (Nat.eqb (length b) 48) eqn:E;
      [intros _; apply Nat.eqb_eq in E; exact E|discriminate].
  - destruct (Nat.eqb (length b) 96) eqn:E; [apply Nat.eqb_eq in E; exact E|discriminate].
  - destruct (Nat.eqb (length b) 96) eqn:E; [|discriminate]. cbn [negb] in *.
    destruct (sign_Deserialize b) as [err|v]; [discriminate|].
    match goal with Hr : (_, _) = (_, _) |- _ => injection Hr as <- <- end.
    exists v. split; [reflexivity|]. cbn [signs]. apply lookup_insert_eq.
Qed.

Lemma live_below_next (m : Mem) (p : nat) :
  wellFormed m -> is_Some (pubkeys m !! p) -> (p < nextLoc m)%nat.
Proof.
  intros (Hfree & _) [v Hv].
  destruct (Nat.lt_ge_cases p (nextLoc m)) as [|Hge]; [assumption|].
  destruct (Hfree p Hge) as (Hn & _). congruence.
Qed.

Lemma Copy_live (m : Mem) (p : nat) (v : PublicKeyVal) :
  pubkeys m !! p = Some v ->
  Copy p m =
  Some (nextLoc m,
        {| pubkeys := <[nextLoc m := v]> (pubkeys m);
           signs := signs m;
           nextLoc := S (nextLoc m);
           pubkeyCache := pubkeyCache m |}).
Proof. intros Hv. unfold Copy. rewrite Hv. reflexivity. Qed.

Lemma Aggregate_inv (p q r : nat) (m m' : Mem) :
  Aggregate p q m = Some (r, m') ->
  r = p /\ pubkeyCache m' = pubkeyCache m /\ nextLoc m' = nextLoc m /\
  signs m' = signs m /\
  exists v vq, pubkeys m !! p = Some v /\ pubkeys m !! q = Some vq /\
               pubkeys m' = <[p := pk_Add v vq]> (pubkeys m).
Proof.
  unfold Aggregate. destruct (pubkeys m !! p) as [v|]; [|discriminate].
  destruct (pubkeys m !! q) as [vq|]; [|discriminate].
  intros Hr. injection Hr as <- <-. cbn. eauto 10.
Qed.

(** [Copy] protects a key from [Aggregate]: the copy is a new key with the
    same value; aggregating another key (or the key itself) into the
    original updates the original in place, returns it, and leaves the copy
    with the old value. *)
Theorem Copy_protects_from_Aggregate (m : Mem) (p q : nat) (v vq : PublicKeyVal) :
  wellFormed m ->
  pubkeys m !! p = Some v ->
  pubkeys m !! q = Some vq ->
  exists c m1 m2,
    Copy p m = Some (c, m1) /\
    c <> p /\ c <> q /\
    pubkeys m1 !! c = Some v /\
    Aggregate p q m1 = Some (p, m2) /\
    pubkeys m2 !! p = Some (pk_Add v vq) /\
    pubkeys m2 !! c = Some v /\
    (q <> p -> pubkeys m2 !! q = Some vq).
Proof.
  intros Hwf Hp Hq.
  assert (Hlp : (p < nextLoc m)%nat) by (apply live_below_next; eauto).
  assert (Hlq : (q < nextLoc m)%nat) by (apply live_below_next; eauto).
  eexists _, _, _. split; [apply (Copy_live m p v Hp)|].
  split; [lia|]. split; [lia|].
  split; [cbn; apply lookup_insert_eq|].
  unfold Aggregate. cbn [pubkeys signs nextLoc pubkeyCache].
  rewrite !lookup_insert_ne by lia. rewrite Hp, Hq.
  split; [reflexivity|]. cbn [pubkeys].
  split; [apply lookup_insert_eq|].
  split.
  - rewrite lookup_insert_ne by lia. apply lookup_insert_eq.
  - intros Hne. rewrite !lookup_insert_ne by (try lia; congruence). exact Hq.
Qed.

(** The public key cache never hands out what it holds.  In a well formed
    memory a successful [PublicKeyFromBytes] returns a key that is not a
    cached one, with the cached value on a hit and the deserialised value on
    a miss; so aggregating into the returned key changes no cached value.
    The memory stays well formed. *)
Theorem PublicKeyFromBytes_never_returns_a_cached_key (admitted : bool) (pub : Bytes)
    (m m' : Mem) (p : nat) :
  wellFormed m ->
  PublicKeyFromBytes admitted pub m = Some (inr p, m') ->
  wellFormed m' /\
  (exists v,
     pubkeys m' !! p = Some v /\
     match cachedValue m pub with
     | Some cached => v = cached
     | None => pk_Deserialize pub = inr v
     end) /\
  (forall key c, pubkeyCache m' !! key = Some c -> c <> p) /\
  (forall q r m'',
     Aggregate p q m' = Some (r, m'') ->
     r = p /\ forall pub0, cachedValue m'' pub0 = cachedValue m' pub0).
Proof.
  intros Hwf Hres.
  assert (Hmain : wellFormed m' /\
            (exists v, pubkeys m' !! p = Some v /\
               match cachedValue m pub with
               | Some cached => v = cached
               | None => pk_Deserialize pub = inr v
               end) /\
            (forall key c, pubkeyCache m' !! key = Some c -> c <> p)).
  { pose proof Hwf as (Hfree & Hcache).
    unfold PublicKeyFromBytes in Hres.
    destruct (negb (Nat.eqb (length pub) BLSPubkeyLength)); [discriminate|].
    unfold cachedValue.
    destruct (pubkeyCache m !! string_of_list_byte pub) as [cv|] eqn:Hhit.
    - destruct (Hcache _ _ Hhit) as [v Hv].
      rewrite (Copy_live m cv v Hv) in Hres. injection Hres as <- <-.
      rewrite Hv. split; [|split].
      + split; cbn [pubkeys signs nextLoc pubkeyCache].
        * intros l Hl. rewrite lookup_insert_ne by lia. apply Hfree. lia.
        * intros key c Hc. specialize (Hcache key c Hc).
          assert (c < nextLoc m)%nat by (apply live_below_next; assumption).
          rewrite lookup_insert_ne by lia. exact Hcache.
      + exists v. split; [cbn; apply lookup_insert_eq|reflexivity].
      + cbn [pubkeyCache]. intros key c Hc. specialize (Hcache key c Hc).
        assert (c < nextLoc m)%nat by (apply live_below_next; assumption). lia.
    - destruct (pk_Deserialize pub) as [err|v] eqn:Hdes; [discriminate|].
      cbv zeta in Hres. unfold Copy in Hres.
      cbn [pubkeys signs nextLoc pubkeyCache] in Hres.
      rewrite lookup_insert_eq in Hres. injection Hres as <- <-.
      assert (Hold : forall key c, pubkeyCache m !! key = Some c -> (c < nextLoc m)%nat).
      { intros key c Hc. apply live_below_next; [exact Hwf|]. eapply Hcache. exact Hc. }
      split; [|split].
      + destruct admitted; split; cbn [pubkeys signs nextLoc pubkeyCache].
        * intros l Hl. rewrite !lookup_insert_ne by lia. apply Hfree. lia.
        * intros key c Hc.
          destruct (decide (string_of_list_byte pub = key)) as [<-|Hne].
          -- rewrite lookup_insert_eq in Hc. injection Hc as <-.
             rewrite lookup_insert_eq. eauto.
          -- rewrite lookup_insert_ne in Hc by assumption.
             pose proof (Hold key c Hc). rewrite !lookup_insert_ne by lia.
             eapply Hcache. exact Hc.
        * intros l Hl. rewrite !lookup_insert_ne by lia. apply Hfree. lia.
        * intros key c Hc. pose proof (Hold key c Hc).
          rewrite !lookup_insert_ne by lia. eapply Hcache. exact Hc.
      + exists v. split; [|reflexivity].
        destruct admitted; cbn [pubkeys]; rewrite lookup_insert_ne by lia;
          apply lookup_insert_eq.
      + intros key c Hc. destruct admitted; cbn [pubkeyCache] in Hc.
        * destruct (decide (string_of_list_byte pub = key)) as [<-|Hne].
          -- rewrite lookup_insert_eq in Hc. injection Hc as <-. lia.
          -- rewrite lookup_insert_ne in Hc by assumption.
             pose proof (Hold key c Hc). lia.
        * pose proof (Hold key c Hc). lia. }
  destruct Hmain as (Hwf' & Hval & Hnot). repeat (split; [assumption|]).
  intros q r m'' Hagg.
  destruct (Aggregate_inv p q r m' m'' Hagg) as (-> & Hc & _ & _ & v & vq & _ & _ & Hpk).
  split; [reflexivity|]. intros pub0. unfold cachedValue. rewrite Hc.
  destruct (pubkeyCache m' !! string_of_list_byte pub0) as [c|] eqn:Hc0; [|reflexivity].
  rewrite Hpk. apply lookup_insert_ne. intros ->. exact (Hnot _ _ Hc0 eq_refl).
Qed.

(** Decoding the same bytes again gives the same key value even when the key
    returned the first time has been aggregated into in between: with the
    first result admitted to the cache, the second call returns another key,
    holding the value that was deserialised. *)
Theorem PublicKeyFromBytes_is_repeatable (admitted : bool) (pub : Bytes) (m : Mem)
    (v : PublicKeyVal) :
  wellFormed m ->
  length pub = 48%nat ->
  pubkeyCache m !! string_of_list_byte pub = None ->
  pk_Deserialize pub = inr v ->
  exists p m1,
    PublicKeyFromBytes true pub m = Some (inr p, m1) /\
    pubkeys m1 !! p = Some v /\
    forall q r m2,
      Aggregate p q m1 = Some (r, m2) ->
      exists p3 m3,
        PublicKeyFromBytes admitted pub m2 = Some (inr p3, m3) /\
        p3 <> p /\
        pubkeys m3 !! p3 = Some v.
Proof.
  intros Hwf Hlen Hmiss Hdes.
  unfold PublicKeyFromBytes at 1. unfold BLSPubkeyLength. rewrite Hlen. cbn [Nat.eqb negb].
  rewrite Hmiss, Hdes. cbv zeta. unfold Copy at 1.
  cbn [pubkeys signs nextLoc pubkeyCache]. rewrite lookup_insert_eq.
  eexists _, _. split; [reflexivity|].
  split; [cbn [pubkeys]; rewrite lookup_insert_ne by lia; apply lookup_insert_eq|].
  intros q r m2 Hagg.
  apply Aggregate_inv in Hagg as (-> & Hc & Hn & _ & v0 & vq & _ & _ & Hpk).
  cbn [pubkeys signs nextLoc pubkeyCache] in Hc, Hn, Hpk.
  unfold PublicKeyFromBytes, BLSPubkeyLength. rewrite Hlen. cbn [Nat.eqb negb].
  rewrite Hc, lookup_insert_eq.
  assert (Hv : pubkeys m2 !! S (nextLoc m) = Some v).
  { rewrite Hpk, lookup_insert_ne by lia. apply lookup_insert_eq. }
  rewrite (Copy_live m2 _ v Hv). eexists _, _. split; [reflexivity|].
  rewrite Hn. split; [lia|]. cbn [pubkeys]. apply lookup_insert_eq.
Qed.

Lemma addAll_spec (signature : nat) (rest : list nat) (vs : list SignVal) :
  forall (m : Mem) (acc : SignVal),
    signs m !! signature = Some acc ->
    Forall2 (fun s v => signs m !! s = Some v /\ s <> signature) rest vs ->
    exists m',
      addAll signature rest m = Some m' /\
      signs m' !! signature = Some (fold_left sign_Add vs acc) /\
      (forall l, l <> signature -> signs m' !! l = signs m !! l) /\
      pubkeys m' = pubkeys m /\ pubkeyCache m' = pubkeyCache m /\
      nextLoc m' = nextLoc m.
Proof.
  revert vs. induction rest as [|s rest IH]; intros vs m acc Hacc Hall.
  - inversion Hall; subst. exists m. cbn. auto 10.
  - inversion Hall as [|? v ? vs' [Hs Hne] Hrest]; subst.
    cbn [addAll fold_left]. rewrite Hacc, Hs.
    set (m1 := {| pubkeys := pubkeys m;
                  signs := <[signature := sign_Add acc v]> (signs m);
                  nextLoc := nextLoc m;
                  pubkeyCache := pubkeyCache m |}).
    destruct (IH vs' m1 (sign_Add acc v)) as (m' & Ha & Hv & Hother & Hp & Hc & Hn).
    + cbn. apply lookup_insert_eq.
    + eapply Forall2_impl; [exact Hrest|].
      intros s0 v0 [Hs0 Hne0]. split; [|exact Hne0].
      cbn. rewrite lookup_insert_ne by congruence. exact Hs0.
    + exists m'. split; [exact Ha|]. split; [exact Hv|].
      split; [|auto].
      intros l Hl. rewrite (Hother l Hl). cbn. apply lookup_insert_ne. congruence.
Qed.

(** [AggregateSignatures] builds a new signature and updates none of its
    inputs: for live signatures, and a library whose [Deserialize] undoes
    [Serialize] on the first of them, the result is a fresh signature whose
    value is the first signature's with the others added in order, and every
    other signature, and every key, is as before.  The empty list gives the
    nil signature. *)
Theorem AggregateSignatures_leaves_its_inputs (m : Mem) (first : nat) (rest : list nat)
    (v0 : SignVal) (vs : list SignVal) :
  wellFormed m ->
  signs m !! first = Some v0 ->
  Forall2 (fun s v => signs m !! s = Some v) rest vs ->
  sign_Deserialize (sign_Serialize v0) = inr v0 ->
  AggregateSignatures [] m = Some (None, m) /\
  exists m',
    AggregateSignatures (first :: rest) m = Some (Some (nextLoc m), m') /\
    signs m !! nextLoc m = None /\
    signs m' !! nextLoc m = Some (fold_left sign_Add vs v0) /\
    (forall l, l <> nextLoc m -> signs m' !! l = signs m !! l) /\
    pubkeys m' = pubkeys m /\ pubkeyCache m' = pubkeyCache m.
Proof.
  intros (Hfree & _) Hfirst Hrest Hrt. split; [reflexivity|].
  unfold AggregateSignatures. rewrite Hfirst. cbv zeta. rewrite Hrt.
  set (m1 := {| pubkeys := pubkeys m;
                signs := <[nextLoc m := v0]> (signs m);
                nextLoc := S (nextLoc m);
                pubkeyCache := pubkeyCache m |}).
  assert (Hfresh : forall s v, signs m !! s = Some v -> s <> nextLoc m).
  { intros s v Hs ->. destruct (Hfree (nextLoc m) (Nat.le_refl _)) as (_ & Hn). congruence. }
  destruct (addAll_spec (nextLoc m) rest vs m1 v0) as (m' & Ha & Hv & Hother & Hp & Hc & _).
  - cbn. apply lookup_insert_eq.
  - eapply Forall2_impl; [exact Hrest|].
    intros s v Hs. split; [|eapply Hfresh; exact Hs].
    cbn. rewrite lookup_insert_ne; [exact Hs|].
    intros Heq. apply (Hfresh s v Hs). symmetry. exact Heq.
  - exists m'. rewrite Ha. split; [reflexivity|].
    split; [apply (Hfree (nextLoc m) (Nat.le_refl _))|].
    split; [exact Hv|]. split; [|auto].
    intros l Hl. rewrite (Hother l Hl). cbn. apply lookup_insert_ne. congruence.
Qed.

Lemma rawKeysOf_length (pubKeys : list nat) (m : Mem) (vals : list PublicKeyVal) :
  rawKeysOf pubKeys m = Some vals -> length vals = length pubKeys.
Proof.
  revert vals. induction pubKeys as [|p rest IH]; intros vals Hr; cbn in Hr.
  - injection Hr as <-. reflexivity.
  - destruct (pubkeys m !! p); [|discriminate].
    destruct (rawKeysOf rest m) as [vs|]; [|discriminate].
    injection Hr as <-. cbn. rewrite (IH vs eq_refl). reflexivity.
Qed.

(** The three verifications answer false for an empty list of keys, and the
    two that take one message per key answer false when the counts differ,
    whatever the memory holds: nothing is dereferenced, so not even a nil
    key or signature makes them panic. *)
Theorem verifications_reject_bad_counts (s : nat) (pubKeys : list nat)
    (msgs : list Bytes) (msg : Bytes) (m : Mem) :
  pubKeys = [] \/ length pubKeys <> length msgs ->
  VerifyAggregate s pubKeys msgs m = Some false /\
  AggregateVerify s pubKeys msgs m = Some false /\
  (pubKeys = [] -> FastAggregateVerify s pubKeys msg m = Some false).
Proof.
  intros Hbad. unfold VerifyAggregate, AggregateVerify, FastAggregateVerify. cbv zeta.
  destruct pubKeys as [|p rest].
  - repeat split; reflexivity.
  - destruct Hbad as [|Hne]; [discriminate|].
    apply Nat.eqb_neq in Hne. rewrite Hne. cbn [Nat.eqb length negb].
    repeat split. discriminate.
Qed.

(** With as many messages as keys, at least one, all live, [AggregateVerify]
    is the library's answer for the values of the keys, in order, and the
    32 byte messages laid end to end: message [i] is bytes [32 i] to
    [32 i + 31] of the buffer. *)
Theorem AggregateVerify_lays_messages_end_to_end (s : nat) (pubKeys : list nat)
    (msgs : list Bytes) (m : Mem) (vals : list PublicKeyVal) (sv : SignVal) :
  pubKeys <> [] ->
  length pubKeys = length msgs ->
  rawKeysOf pubKeys m = Some vals ->
  signs m !! s = Some sv ->
  Forall (fun x => length x = 32%nat) msgs ->
  AggregateVerify s pubKeys msgs m = Some (lib_AggregateVerify sv vals (List.concat msgs)) /\
  length vals = length msgs /\
  length (List.concat msgs) = (32 * length msgs)%nat /\
  forall (i : nat) (x : Bytes),
    msgs !! i = Some x -> firstn 32 (skipn (32 * i) (List.concat msgs)) = x.
Proof.
  intros Hne Hlen Hraw Hs H32.
  split; [|split; [|split]].
  - unfold AggregateVerify. cbv zeta.
    destruct pubKeys as [|p rest]; [contradiction|].
    cbn [length Nat.eqb]. rewrite <- Hlen. cbn [length]. rewrite Nat.eqb_refl.
    cbn [negb]. rewrite Hraw, Hs. reflexivity.
  - rewrite (rawKeysOf_length pubKeys m vals Hraw). exact Hlen.
  - clear -H32. induction H32 as [|x l Hx _ IH]; [reflexivity|].
    cbn [List.concat length]. rewrite length_app, IH, Hx. lia.
  - clear -H32. induction H32 as [|y l Hy _ IH]; intros i x Hi; [discriminate|].
    destruct i as [|i].
    + cbn in Hi. injection Hi as <-. rewrite Nat.mul_0_r. cbn [List.concat].
      change (drop 0 (y ++ List.concat l)) with (y ++ List.concat l).
      rewrite firstn_app, Hy, Nat.sub_diag, firstn_all2 by lia. apply app_nil_r.
    + cbn [lookup list_lookup] in Hi. cbn [List.concat].
      replace (32 * S i)%nat with (length y + 32 * i)%nat by lia.
      rewrite skipn_app, skipn_all2 by lia.
      replace (length y + 32 * i - length y)%nat with (32 * i)%nat by lia.
      cbn [app]. apply IH. exact Hi.
Qed.

End BlsKeys.

Section BlsKeyWitnesses.

Import bls.

Lemma decoders_check_the_length_witness :
  @SecretKeyFromBytes sampleLib [] = inl "secret key must be 32 bytes" /\
  @PublicKeyFromBytes sampleLib true [] (@emptyMem sampleLib)
    = Some (inl "public key must be 48 bytes", @emptyMem sampleLib).
Proof.
  destruct (@decoders_check_the_length sampleLib true [] (@emptyMem sampleLib))
    as (Hs & Hp & _).
  split; [apply Hs|apply Hp]; discriminate.
Defined.

Lemma Copy_protects_from_Aggregate_witness :
  let m : @Mem sampleLib :=
    {| pubkeys := <[0%nat := 5]> ∅; signs := ∅; nextLoc := 1%nat; pubkeyCache := ∅ |} in
  exists c m1 m2,
    @Copy sampleLib 0%nat m = Some (c, m1) /\
    @Aggregate sampleLib 0%nat 0%nat m1 = Some (0%nat, m2) /\
    pubkeys m2 !! 0%nat = Some 10 /\ pubkeys m2 !! c = Some 5.
Proof.
  intros m.
  assert (Hwf : @wellFormed sampleLib m).
  { split.
    - intros l Hl. cbn in *. rewrite lookup_insert_ne by lia. split; apply lookup_empty.
    - intros pub c Hc. cbn in Hc. rewrite lookup_empty in Hc. discriminate. }
  destruct (@Copy_protects_from_Aggregate sampleLib m 0%nat 0%nat 5 5 Hwf eq_refl eq_refl)
    as (c & m1 & m2 & Hc & _ & _ & _ & Ha & Hp & Hcv & _).
  exists c, m1, m2. auto.
Defined.

Lemma emptyMem_wellFormed : @wellFormed sampleLib (@emptyMem sampleLib).
Proof.
  split.
  - intros l _. split; apply lookup_empty.
  - intros pub c Hc. cbn in Hc. rewrite lookup_empty in Hc. discriminate.
Qed.

Lemma PublicKeyFromBytes_never_returns_a_cached_key_witness :
  let pub := repeat Byte.x01 48 in
  exists p m',
    @PublicKeyFromBytes sampleLib true pub (@emptyMem sampleLib) = Some (inr p, m') /\
    forall key c, pubkeyCache m' !! key = Some c -> c <> p.
Proof.
  intros pub. eexists _, _. split; [reflexivity|].
  apply (@PublicKeyFromBytes_never_returns_a_cached_key sampleLib true pub
           (@emptyMem sampleLib) _ _ emptyMem_wellFormed eq_refl).
Defined.

Lemma PublicKeyFromBytes_is_repeatable_witness :
  let pub := repeat Byte.x01 48 in
  exists p m1,
    @PublicKeyFromBytes sampleLib true pub (@emptyMem sampleLib) = Some (inr p, m1) /\
    pubkeys m1 !! p = Some 7.
Proof.
  intros pub.
  destruct (@PublicKeyFromBytes_is_repeatable sampleLib false pub (@emptyMem sampleLib) 7
              emptyMem_wellFormed eq_refl (lookup_empty _) eq_refl)
    as (p & m1 & Hr & Hv & _).
  exists p, m1. split; assumption.
Defined.

Lemma AggregateSignatures_leaves_its_inputs_witness :
  let m : @Mem sampleLib :=
    {| pubkeys := ∅; signs := <[1%nat := 4]> (<[0%nat := 3]> ∅);
       nextLoc := 2%nat; pubkeyCache := ∅ |} in
  exists m',
    @AggregateSignatures sampleLib [0%nat; 1%nat] m = Some (Some 2%nat, m') /\
    signs m' !! 2%nat = Some 7 /\ signs m' !! 0%nat = Some 3.
Proof.
  intros m.
  assert (Hwf : @wellFormed sampleLib m).
  { split.
    - intros l Hl. cbn in *. rewrite !lookup_insert_ne by lia.
      split; apply lookup_empty.
    - intros pub c Hc. cbn in Hc. rewrite lookup_empty in Hc. discriminate. }
  destruct (@AggregateSignatures_leaves_its_inputs sampleLib m 0%nat [1%nat] 3 [4] Hwf)
    as (_ & m' & Hr & _ & Hv & Hother & _).
  - reflexivity.
  - repeat constructor.
  - reflexivity.
  - exists m'. split; [exact Hr|]. split; [exact Hv|].
    rewrite Hother by discriminate. reflexivity.
Defined.

Lemma verifications_reject_bad_counts_witness :
  @AggregateVerify sampleLib 0%nat [5%nat] [] (@emptyMem sampleLib) = Some false.
Proof.
  apply (@verifications_reject_bad_counts sampleLib 0%nat [5%nat] [] []
           (@emptyMem sampleLib)).
  right. discriminate.
Defined.

Lemma AggregateVerify_lays_messages_end_to_end_witness :
  let m : @Mem sampleLib :=
    {| pubkeys := <[0%nat := 5]> ∅; signs := <[1%nat := 4]> ∅;
       nextLoc := 2%nat; pubkeyCache := ∅ |} in
  let msgs := [repeat Byte.x01 32] in
  @AggregateVerify sampleLib 1%nat [0%nat] msgs m = Some true /\
  length (List.concat msgs) = 32%nat.
Proof.
  intros m msgs.
  destruct (@AggregateVerify_lays_messages_end_to_end sampleLib 1%nat [0%nat] msgs m [5] 4)
    as (Hr & _ & Hl & _); try reflexivity.
  - discriminate.
  - repeat constructor.
  - split; [exact Hr|exact Hl].
Defined.

End BlsKeyWitnesses.
